(** * Ezcord client call orchestration: a shallow embedding of [script.js]

    The development embeds the call and voice-channel part of the browser
    client ([script.js]): the global call flags, the [peerConnections]
    table, the device toggles ([setMicrophoneState], [setSpeakerState]),
    joining and leaving a voice channel, direct calls with their incoming
    call panel, and the signalling handlers registered in
    [connectToSocketIO].

    Conventions of the embedding.
    - The globals of the script and the objects of the page are fields of
      one [State]; every function of the script is a function on [State].
    - Browser objects that the script shares by reference live in two
      heaps: [tracks] (every [MediaStreamTrack] ever handed out by
      [getUserMedia]) and [pcHeap] (every [RTCPeerConnection] ever
      constructed).  A [MediaStream] and the [peerConnections] table hold
      indices into these heaps, so that a track stays observable after
      [localStream = null] and a connection after [delete peerConnections[id]].
    - What the environment decides is an explicit argument: the outcome of
      [getUserMedia] ([GumResult]), the new ICE connection state, the
      time that elapses.
    - An [async] function is run to completion in one step with the
      outcome of its [await] given; [console.log] and purely visual DOM
      updates (avatars, captions, resize handles) are left out.
    - [socket.emit] appends to the log [emitted].
    - Socket ids are the ids the relay hands out; none of them is the name
      of a property of [Object.prototype], so [peerConnections[id]] is a
      lookup in a finite map.
    The camera toggle, screen sharing and the close button take no part in
    [Event]; they are embedded as functions of their own. *)

From Stdlib Require Import ZArith.
From stdpp Require Import gmap strings list fin_maps.

Local Open Scope string_scope.
Local Open Scope list_scope.

(** ** Browser objects *)

Inductive TrackKind := audio | video.

#[global] Instance TrackKind_eq_dec : EqDecision TrackKind.
Proof. solve_decision. Defined.

(** A [MediaStreamTrack]: [enabled] is the flag the script writes,
    [readyLive] is [readyState === 'live'] (cleared by [track.stop()]). *)
Record MediaStreamTrack := {
  kind : TrackKind;
  enabled : bool;
  readyLive : bool
}.

(** A [MediaStream] lists its tracks by reference into the track heap. *)
Record MediaStream := { streamTracks : list nat }.

Inductive SdpType := offer | answer.

(** [RTCSessionDescription]; the text of a description the local browser
    produces is not modelled and left empty. *)
Record SessionDescription := { sdpType : SdpType; sdp : string }.

Inductive IceConnectionState :=
  | ice_new | ice_checking | ice_connected | ice_completed
  | ice_failed | ice_disconnected | ice_closed.

(** An [RTCPeerConnection] as the script uses it.  [pcRemote] and
    [pcInitiator] are the arguments of [createPeerConnection] captured by
    the handlers' closures.  [addIceCandidateCalls] logs every candidate
    the script passes to [addIceCandidate]; [remoteCandidates] keeps the
    ones the browser accepts.  [restartIceCalls] counts [pc.restartIce()]. *)
Record RTCPeerConnection := {
  pcRemote : string;
  pcInitiator : bool;
  senders : list nat;
  localDescription : option SessionDescription;
  remoteDescription : option SessionDescription;
  addIceCandidateCalls : list string;
  remoteCandidates : list string;
  iceConnectionState : IceConnectionState;
  restartIceCalls : nat;
  pcClosed : bool
}.

(** ** Signalling data *)

Inductive CallType := audioCall | videoCall.

(** The [from] object of call messages: [{ id, username, socketId }]. *)
Record Caller := {
  callerId : Z;
  callerName : string;
  callerSocketId : string
}.

(** Messages handed to [socket.emit]. *)
Inductive Emit :=
  | JoinVoiceChannel (channelName : string) (userId : Z)
  | LeaveVoiceChannel (channel : string)
  | Offer (to : string) (o : SessionDescription)
  | Answer (to : string) (a : SessionDescription)
  | IceCandidate (to : string) (candidate : string)
  | VideoToggle (to : string) (on : bool)
  | InitiateCall (to : Z) (ty : CallType) (from : Caller)
  | AcceptCall (to : string) (from : Caller)
  | RejectCall (to : string)
  | EndCall (to : string).

(** [window.currentCallDetails]. *)
Record CallDetails := {
  friendId : option Z;
  peerId : option string;
  callType : CallType;
  isInitiator : bool;
  originalType : CallType
}.

(** Outcome of [navigator.mediaDevices.getUserMedia]: the kinds of the
    tracks of the granted stream, or a rejection. *)
Inductive GumResult :=
  | Granted (kinds : list TrackKind)
  | Denied.

(** ** The state of the page *)

(** What the embedded functions only read: the text channel in
    [currentChannel], and [currentUser] together with [socket.id] in the
    shape of the [from] object the script builds from them. *)
Record Config := {
  currentChannel : string;
  currentUser : Caller
}.

(** The device flags of the script. *)
Record Device := {
  isVideoEnabled : bool;
  isAudioEnabled : bool;
  isMuted : bool;
  preferredMicEnabled : bool;
  isDeafened : bool
}.

(** The part of the document the call code reads back: the [hidden] class
    of [#callInterface] and [#incomingCall], the [onclick] closures of the
    accept and reject buttons (with the [caller] and [type] they capture),
    the boxes [div#participant-<id>] of [#remoteParticipants], each with
    the volume of its [video#remote-<id>] as long as the video has not
    been removed from it, and the [alert]s shown. *)
Record Page := {
  callInterfaceHidden : bool;
  incomingCallHidden : bool;
  acceptBtnOnclick : option (Caller * CallType);
  rejectBtnOnclick : option Caller;
  remoteParticipants : gmap string (option Z);
  alerts : list string
}.

(** The browser side: both heaps, the clock in milliseconds with the
    pending auto-reject timeouts (deadline and captured [caller], in
    arming order), and the socket. *)
Record Runtime := {
  tracks : list MediaStreamTrack;
  pcHeap : list RTCPeerConnection;
  now : Z;
  timers : list (Z * Caller);
  socketConnected : bool;
  emitted : list Emit
}.

Record State := {
  config : Config;
  inCall : bool;
  localStream : option MediaStream;
  screenStream : option MediaStream;
  peerConnections : gmap string nat;
  currentCallDetails : option CallDetails;
  device : Device;
  page : Page;
  runtime : Runtime
}.

(** *** Field updates *)

Definition with_isVideoEnabled (v : bool) (x : Device) : Device :=
  {| isVideoEnabled := v; isAudioEnabled := isAudioEnabled x; isMuted := isMuted x;
     preferredMicEnabled := preferredMicEnabled x; isDeafened := isDeafened x |}.

Definition with_isAudioEnabled (v : bool) (x : Device) : Device :=
  {| isVideoEnabled := isVideoEnabled x; isAudioEnabled := v; isMuted := isMuted x;
     preferredMicEnabled := preferredMicEnabled x; isDeafened := isDeafened x |}.

Definition with_isMuted (v : bool) (x : Device) : Device :=
  {| isVideoEnabled := isVideoEnabled x; isAudioEnabled := isAudioEnabled x; isMuted := v;
     preferredMicEnabled := preferredMicEnabled x; isDeafened := isDeafened x |}.

Definition with_preferredMicEnabled (v : bool) (x : Device) : Device :=
  {| isVideoEnabled := isVideoEnabled x; isAudioEnabled := isAudioEnabled x; isMuted :=
     isMuted x; preferredMicEnabled := v; isDeafened := isDeafened x |}.

Definition with_isDeafened (v : bool) (x : Device) : Device :=
  {| isVideoEnabled := isVideoEnabled x; isAudioEnabled := isAudioEnabled x; isMuted :=
     isMuted x; preferredMicEnabled := preferredMicEnabled x; isDeafened := v |}.

Definition with_callInterfaceHidden (v : bool) (x : Page) : Page :=
  {| callInterfaceHidden := v; incomingCallHidden := incomingCallHidden x; acceptBtnOnclick
     := acceptBtnOnclick x; rejectBtnOnclick := rejectBtnOnclick x; remoteParticipants :=
     remoteParticipants x; alerts := alerts x |}.

Definition with_incomingCallHidden (v : bool) (x : Page) : Page :=
  {| callInterfaceHidden := callInterfaceHidden x; incomingCallHidden := v; acceptBtnOnclick
     := acceptBtnOnclick x; rejectBtnOnclick := rejectBtnOnclick x; remoteParticipants :=
     remoteParticipants x; alerts := alerts x |}.

Definition with_acceptBtnOnclick (v : option (Caller * CallType)) (x : Page) : Page :=
  {| callInterfaceHidden := callInterfaceHidden x; incomingCallHidden := incomingCallHidden
     x; acceptBtnOnclick := v; rejectBtnOnclick := rejectBtnOnclick x; remoteParticipants :=
     remoteParticipants x; alerts := alerts x |}.

Definition with_rejectBtnOnclick (v : option Caller) (x : Page) : Page :=
  {| callInterfaceHidden := callInterfaceHidden x; incomingCallHidden := incomingCallHidden
     x; acceptBtnOnclick := acceptBtnOnclick x; rejectBtnOnclick := v; remoteParticipants :=
     remoteParticipants x; alerts := alerts x |}.

Definition with_remoteParticipants (v : gmap string (option Z)) (x : Page) : Page :=
  {| callInterfaceHidden := callInterfaceHidden x; incomingCallHidden := incomingCallHidden
     x; acceptBtnOnclick := acceptBtnOnclick x; rejectBtnOnclick := rejectBtnOnclick x;
     remoteParticipants := v; alerts := alerts x |}.

Definition with_alerts (v : list string) (x : Page) : Page :=
  {| callInterfaceHidden := callInterfaceHidden x; incomingCallHidden := incomingCallHidden
     x; acceptBtnOnclick := acceptBtnOnclick x; rejectBtnOnclick := rejectBtnOnclick x;
     remoteParticipants := remoteParticipants x; alerts := v |}.

Definition with_tracks (v : list MediaStreamTrack) (x : Runtime) : Runtime :=
  {| tracks := v; pcHeap := pcHeap x; now := now x; timers := timers x; socketConnected :=
     socketConnected x; emitted := emitted x |}.

Definition with_pcHeap (v : list RTCPeerConnection) (x : Runtime) : Runtime :=
  {| tracks := tracks x; pcHeap := v; now := now x; timers := timers x; socketConnected :=
     socketConnected x; emitted := emitted x |}.

Definition with_now (v : Z) (x : Runtime) : Runtime :=
  {| tracks := tracks x; pcHeap := pcHeap x; now := v; timers := timers x; socketConnected
     := socketConnected x; emitted := emitted x |}.

Definition with_timers (v : list (Z * Caller)) (x : Runtime) : Runtime :=
  {| tracks := tracks x; pcHeap := pcHeap x; now := now x; timers := v; socketConnected :=
     socketConnected x; emitted := emitted x |}.

Definition with_socketConnected (v : bool) (x : Runtime) : Runtime :=
  {| tracks := tracks x; pcHeap := pcHeap x; now := now x; timers := timers x;
     socketConnected := v; emitted := emitted x |}.

Definition with_emitted (v : list Emit) (x : Runtime) : Runtime :=
  {| tracks := tracks x; pcHeap := pcHeap x; now := now x; timers := timers x;
     socketConnected := socketConnected x; emitted := v |}.

Definition set_inCall (v : bool) (x : State) : State :=
  {| config := config x; inCall := v; localStream := localStream x; screenStream :=
     screenStream x; peerConnections := peerConnections x; currentCallDetails :=
     currentCallDetails x; device := device x; page := page x; runtime := runtime x |}.

Definition set_localStream (v : option MediaStream) (x : State) : State :=
  {| config := config x; inCall := inCall x; localStream := v; screenStream := screenStream
     x; peerConnections := peerConnections x; currentCallDetails := currentCallDetails x;
     device := device x; page := page x; runtime := runtime x |}.

Definition set_screenStream (v : option MediaStream) (x : State) : State :=
  {| config := config x; inCall := inCall x; localStream := localStream x; screenStream :=
     v; peerConnections := peerConnections x; currentCallDetails := currentCallDetails x;
     device := device x; page := page x; runtime := runtime x |}.

Definition set_peerConnections (v : gmap string nat) (x : State) : State :=
  {| config := config x; inCall := inCall x; localStream := localStream x; screenStream :=
     screenStream x; peerConnections := v; currentCallDetails := currentCallDetails x;
     device := device x; page := page x; runtime := runtime x |}.

Definition set_currentCallDetails (v : option CallDetails) (x : State) : State :=
  {| config := config x; inCall := inCall x; localStream := localStream x; screenStream :=
     screenStream x; peerConnections := peerConnections x; currentCallDetails := v; device
     := device x; page := page x; runtime := runtime x |}.

Definition set_device (v : Device) (x : State) : State :=
  {| config := config x; inCall := inCall x; localStream := localStream x; screenStream :=
     screenStream x; peerConnections := peerConnections x; currentCallDetails :=
     currentCallDetails x; device := v; page := page x; runtime := runtime x |}.

Definition set_page (v : Page) (x : State) : State :=
  {| config := config x; inCall := inCall x; localStream := localStream x; screenStream :=
     screenStream x; peerConnections := peerConnections x; currentCallDetails :=
     currentCallDetails x; device := device x; page := v; runtime := runtime x |}.

Definition set_runtime (v : Runtime) (x : State) : State :=
  {| config := config x; inCall := inCall x; localStream := localStream x; screenStream :=
     screenStream x; peerConnections := peerConnections x; currentCallDetails :=
     currentCallDetails x; device := device x; page := page x; runtime := v |}.

Definition set_isVideoEnabled (v : bool) (s : State) : State :=
  set_device (with_isVideoEnabled v (device s)) s.

Definition set_isAudioEnabled (v : bool) (s : State) : State :=
  set_device (with_isAudioEnabled v (device s)) s.

Definition set_isMuted (v : bool) (s : State) : State :=
  set_device (with_isMuted v (device s)) s.

Definition set_preferredMicEnabled (v : bool) (s : State) : State :=
  set_device (with_preferredMicEnabled v (device s)) s.

Definition set_isDeafened (v : bool) (s : State) : State :=
  set_device (with_isDeafened v (device s)) s.

Definition set_callInterfaceHidden (v : bool) (s : State) : State :=
  set_page (with_callInterfaceHidden v (page s)) s.

Definition set_incomingCallHidden (v : bool) (s : State) : State :=
  set_page (with_incomingCallHidden v (page s)) s.

Definition set_acceptBtnOnclick (v : option (Caller * CallType)) (s : State) : State :=
  set_page (with_acceptBtnOnclick v (page s)) s.

Definition set_rejectBtnOnclick (v : option Caller) (s : State) : State :=
  set_page (with_rejectBtnOnclick v (page s)) s.

Definition set_remoteParticipants (v : gmap string (option Z)) (s : State) : State :=
  set_page (with_remoteParticipants v (page s)) s.

Definition set_alerts (v : list string) (s : State) : State :=
  set_page (with_alerts v (page s)) s.

Definition set_tracks (v : list MediaStreamTrack) (s : State) : State :=
  set_runtime (with_tracks v (runtime s)) s.

Definition set_pcHeap (v : list RTCPeerConnection) (s : State) : State :=
  set_runtime (with_pcHeap v (runtime s)) s.

Definition set_now (v : Z) (s : State) : State :=
  set_runtime (with_now v (runtime s)) s.

Definition set_timers (v : list (Z * Caller)) (s : State) : State :=
  set_runtime (with_timers v (runtime s)) s.

Definition set_socketConnected (v : bool) (s : State) : State :=
  set_runtime (with_socketConnected v (runtime s)) s.

Definition set_emitted (v : list Emit) (s : State) : State :=
  set_runtime (with_emitted v (runtime s)) s.

(** ** Heaps *)

(** [refs.forEach(r => heap[r] = f(heap[r]))]: an in-place update of the
    objects behind a list of references. *)
Definition forEachRef {A} (f : A → A) (refs : list nat) (heap : list A) : list A :=
  foldl (λ h r, alter f r h) heap refs.

Definition set_enabled (v : bool) (t : MediaStreamTrack) : MediaStreamTrack :=
  {| kind := kind t; enabled := v; readyLive := readyLive t |}.

(** [track.stop()] *)
Definition stop (t : MediaStreamTrack) : MediaStreamTrack :=
  {| kind := kind t; enabled := enabled t; readyLive := false |}.

Definition hasKind (k : TrackKind) (heap : list MediaStreamTrack) (r : nat) : bool :=
  match heap !! r with
  | Some t => bool_decide (kind t = k)
  | None => false
  end.

(** [stream.getAudioTracks()] and [stream.getVideoTracks()] *)
Definition getTracksOfKind (k : TrackKind) (heap : list MediaStreamTrack)
    (ms : MediaStream) : list nat :=
  List.filter (hasKind k heap) (streamTracks ms).

Definition getAudioTracks := getTracksOfKind audio.
Definition getVideoTracks := getTracksOfKind video.

(** A stream as [getUserMedia] resolves it: fresh tracks, enabled and live. *)
Definition freshTrack (k : TrackKind) : MediaStreamTrack :=
  {| kind := k; enabled := true; readyLive := true |}.

Definition newStream (kinds : list TrackKind) (heap : list MediaStreamTrack)
    : MediaStream * list MediaStreamTrack :=
  ({| streamTracks := seq (length heap) (length kinds) |}, heap ++ (freshTrack <$> kinds)).

(** The [enabled] flags of the audio tracks of [localStream], in order:
    the effective state of the microphone. *)
Definition localAudioEnabled (s : State) : list bool :=
  match localStream s with
  | Some ms =>
      omap (λ r, enabled <$> tracks (runtime s) !! r) (getAudioTracks (tracks (runtime s)) ms)
  | None => []
  end.

(** *** Peer connection methods *)

Definition newPeerConnection (remote : string) (initiator : bool) (added : list nat)
    : RTCPeerConnection :=
  {| pcRemote := remote; pcInitiator := initiator; senders := added;
     localDescription := None; remoteDescription := None;
     addIceCandidateCalls := []; remoteCandidates := [];
     iceConnectionState := ice_new; restartIceCalls := 0; pcClosed := false |}.

Definition setLocalDescription (d : SessionDescription) (pc : RTCPeerConnection)
    : RTCPeerConnection :=
  {| pcRemote := pcRemote pc; pcInitiator := pcInitiator pc; senders := senders pc;
     localDescription := Some d; remoteDescription := remoteDescription pc;
     addIceCandidateCalls := addIceCandidateCalls pc; remoteCandidates := remoteCandidates pc;
     iceConnectionState := iceConnectionState pc; restartIceCalls := restartIceCalls pc;
     pcClosed := pcClosed pc |}.

(** The signalling-state checks of the browser are not modelled: the
    description is stored. *)
Definition setRemoteDescription (d : SessionDescription) (pc : RTCPeerConnection)
    : RTCPeerConnection :=
  {| pcRemote := pcRemote pc; pcInitiator := pcInitiator pc; senders := senders pc;
     localDescription := localDescription pc; remoteDescription := Some d;
     addIceCandidateCalls := addIceCandidateCalls pc; remoteCandidates := remoteCandidates pc;
     iceConnectionState := iceConnectionState pc; restartIceCalls := restartIceCalls pc;
     pcClosed := pcClosed pc |}.

(** [pc.addIceCandidate(c)]: the call is logged; the browser takes the
    candidate when a remote description is set and otherwise rejects the
    promise (InvalidStateError), which loses the candidate. *)
Definition addIceCandidate (c : string) (pc : RTCPeerConnection) : RTCPeerConnection :=
  {| pcRemote := pcRemote pc; pcInitiator := pcInitiator pc; senders := senders pc;
     localDescription := localDescription pc; remoteDescription := remoteDescription pc;
     addIceCandidateCalls := addIceCandidateCalls pc ++ [c];
     remoteCandidates :=
       match remoteDescription pc with
       | Some _ => remoteCandidates pc ++ [c]
       | None => remoteCandidates pc
       end;
     iceConnectionState := iceConnectionState pc; restartIceCalls := restartIceCalls pc;
     pcClosed := pcClosed pc |}.

Definition setIceConnectionState (st : IceConnectionState) (pc : RTCPeerConnection)
    : RTCPeerConnection :=
  {| pcRemote := pcRemote pc; pcInitiator := pcInitiator pc; senders := senders pc;
     localDescription := localDescription pc; remoteDescription := remoteDescription pc;
     addIceCandidateCalls := addIceCandidateCalls pc; remoteCandidates := remoteCandidates pc;
     iceConnectionState := st; restartIceCalls := restartIceCalls pc;
     pcClosed := pcClosed pc |}.

Definition restartIce (pc : RTCPeerConnection) : RTCPeerConnection :=
  {| pcRemote := pcRemote pc; pcInitiator := pcInitiator pc; senders := senders pc;
     localDescription := localDescription pc; remoteDescription := remoteDescription pc;
     addIceCandidateCalls := addIceCandidateCalls pc; remoteCandidates := remoteCandidates pc;
     iceConnectionState := iceConnectionState pc; restartIceCalls := S (restartIceCalls pc);
     pcClosed := pcClosed pc |}.

(** [pc.close()] *)
Definition close (pc : RTCPeerConnection) : RTCPeerConnection :=
  {| pcRemote := pcRemote pc; pcInitiator := pcInitiator pc; senders := senders pc;
     localDescription := localDescription pc; remoteDescription := remoteDescription pc;
     addIceCandidateCalls := addIceCandidateCalls pc; remoteCandidates := remoteCandidates pc;
     iceConnectionState := ice_closed; restartIceCalls := restartIceCalls pc;
     pcClosed := true |}.

(** Apply a method to the connection behind a reference. *)
Definition onPc (f : RTCPeerConnection → RTCPeerConnection) (pc : nat) (s : State) : State :=
  set_pcHeap (alter f pc (pcHeap (runtime s))) s.

(** *** The socket and the page *)

(** [socket.emit(...)] *)
Definition emit (m : Emit) (s : State) : State :=
  set_emitted (emitted (runtime s) ++ [m]) s.

(** [if (socket && socket.connected) socket.emit(...)] *)
Definition emitIfConnected (m : Emit) (s : State) : State :=
  if socketConnected (runtime s) then emit m s else s.

Definition alert (msg : string) (s : State) : State :=
  set_alerts (alerts (page s) ++ [msg]) s.

(** The description [createOffer] or [createAnswer] resolves to. *)
Definition localSdp (ty : SdpType) : SessionDescription := {| sdpType := ty; sdp := "" |}.

(** ** WebRTC functions *)

(** [createPeerConnection(remoteSocketId, isInitiator)]: returns the
    reference of the connection and the new state.  An existing entry of
    [peerConnections] is returned as it is.  Otherwise a connection is
    constructed and stored, the audio tracks of [localStream] and then its
    video tracks are added as senders, and an initiator creates an offer,
    sets it as local description and emits it (the promise chain is taken
    to resolve). *)
Definition createPeerConnection (remoteSocketId : string) (isInit : bool) (s : State)
    : nat * State :=
  match peerConnections s !! remoteSocketId with
  | Some pc => (pc, s)
  | None =>
      let pc := length (pcHeap (runtime s)) in
      let added :=
        match localStream s with
        | Some ms =>
            getAudioTracks (tracks (runtime s)) ms ++ getVideoTracks (tracks (runtime s)) ms
        | None => []
        end in
      let s1 := set_peerConnections (<[remoteSocketId := pc]> (peerConnections s)) s in
      let s2 :=
        set_pcHeap (pcHeap (runtime s1) ++ [newPeerConnection remoteSocketId isInit added]) s1 in
      let s3 :=
        if isInit
        then emit (Offer remoteSocketId (localSdp offer))
               (onPc (setLocalDescription (localSdp offer)) pc s2)
        else s2 in
      (pc, s3)
  end.

(** [pc.onicecandidate]: a discovered candidate is sent to the remote id
    of this connection; the end-of-candidates event carries none. *)
Definition onicecandidate (pc : nat) (candidate : option string) (s : State) : State :=
  match pcHeap (runtime s) !! pc, candidate with
  | Some o, Some c => emit (IceCandidate (pcRemote o) c) s
  | _, _ => s
  end.

(** [pc.oniceconnectionstatechange], fired by the browser after it has
    set [pc.iceConnectionState] to [st]. *)
Definition oniceconnectionstatechange (pc : nat) (st : IceConnectionState) (s : State)
    : State :=
  let s1 := onPc (setIceConnectionState st) pc s in
  match st with
  | ice_failed => onPc restartIce pc s1
  | _ => s1
  end.

(** [pc.ontrack]: when the remote has no participant box yet, the box is
    created with its video, whose volume respects [isDeafened]. *)
Definition ontrack (pc : nat) (s : State) : State :=
  match pcHeap (runtime s) !! pc with
  | Some o =>
      match remoteParticipants (page s) !! pcRemote o with
      | Some _ => s
      | None =>
          set_remoteParticipants
            (<[pcRemote o := Some (if isDeafened (device s) then 0%Z else 1%Z)]>
               (remoteParticipants (page s))) s
      end
  | None => s
  end.

(** ** Device state *)

(** [setMicrophoneState(enabled, { skipPreferenceUpdate })] *)
Definition setMicrophoneState (en : bool) (skipPreferenceUpdate : bool) (s : State) : State :=
  let s1 := if skipPreferenceUpdate then s else set_preferredMicEnabled en s in
  let s2 := set_isMuted (negb en) (set_isAudioEnabled en s1) in
  match localStream s2 with
  | Some ms =>
      set_tracks
        (forEachRef (set_enabled (en && negb (isDeafened (device s2))))
           (getAudioTracks (tracks (runtime s2)) ms) (tracks (runtime s2))) s2
  | None => s2
  end.

(** [video.volume = v] for a participant box that still has its video. *)
Definition setVolume (v : Z) (video : option Z) : option Z := (λ _, v) <$> video.

(** [setSpeakerState(enabled)] *)
Definition setSpeakerState (en : bool) (s : State) : State :=
  let s1 := set_isDeafened (negb en) s in
  let s2 :=
    set_remoteParticipants
      (setVolume (if en then 1%Z else 0%Z) <$> remoteParticipants (page s1)) s1 in
  if negb en
  then setMicrophoneState false true s2
  else setMicrophoneState (preferredMicEnabled (device s2)) false s2.

(** [toggleAudio()] *)
Definition toggleAudio (s : State) : State :=
  setMicrophoneState (negb (isAudioEnabled (device s))) false s.

(** ** Voice channels *)

(** [initializeMedia()]: [None] when [getUserMedia] rejects and the
    function rethrows, nothing having been written. *)
Definition initializeMedia (gum : GumResult) (s : State) : option State :=
  match gum with
  | Denied => None
  | Granted kinds =>
      let (ms, heap) := newStream kinds (tracks (runtime s)) in
      let s1 := set_localStream (Some ms) (set_tracks heap s) in
      Some
        (if isMuted (device s1) || isDeafened (device s1)
         then set_tracks (forEachRef (set_enabled false) (getAudioTracks heap ms) heap) s1
         else s1)
  end.

(** [stream.getTracks().forEach(track => track.stop())] under [if (stream)] *)
Definition stopStream (ms : option MediaStream) (heap : list MediaStreamTrack)
    : list MediaStreamTrack :=
  match ms with
  | Some m => forEachRef stop (streamTracks m) heap
  | None => heap
  end.

(** [Object.values(peerConnections)].  The order differs from the
    insertion order of the script; it is only used to close every
    connection, which does not depend on the order. *)
Definition values (m : gmap string nat) : list nat := (map_to_list m).*2.

(** [leaveVoiceChannel(force = false)] *)
Definition leaveVoiceChannel (force : bool) (s : State) : State :=
  if negb (inCall s) then s
  else
    let s1 :=
      if force then
        let a := set_inCall false s in
        let b :=
          set_localStream None (set_tracks (stopStream (localStream a) (tracks (runtime a))) a) in
        let c :=
          set_screenStream None
            (set_tracks (stopStream (screenStream b) (tracks (runtime b))) b) in
        let d := emitIfConnected (LeaveVoiceChannel (currentChannel (config c))) c in
        let e :=
          set_peerConnections ∅
            (set_pcHeap (forEachRef close (values (peerConnections d)) (pcHeap (runtime d))) d) in
        set_remoteParticipants ∅ e
      else s in
    let s2 := set_callInterfaceHidden true s1 in
    if force then
      set_isDeafened false
        (set_preferredMicEnabled true
           (set_isMuted false (set_isAudioEnabled true (set_isVideoEnabled true s2))))
    else s2.

(** [joinVoiceChannel(channelName)] *)
Definition joinVoiceChannel (channelName : string) (gum : GumResult) (s : State) : State :=
  if inCall s then
    if callInterfaceHidden (page s) then set_callInterfaceHidden false s else s
  else
    let s1 := set_callInterfaceHidden false (set_inCall true s) in
    match initializeMedia gum s1 with
    | Some s2 =>
        emitIfConnected (JoinVoiceChannel channelName (callerId (currentUser (config s2)))) s2
    | None =>
        leaveVoiceChannel true
          (alert "Error accessing camera/microphone. Please grant permissions." s1)
    end.

(** ** Direct calls *)

(** The part [initiateCall] and [acceptCall] share after [getUserMedia]
    has resolved: the stream is stored and, for an audio call, its video
    tracks are disabled. *)
Definition acquireCallMedia (ty : CallType) (kinds : list TrackKind) (s : State) : State :=
  let (ms, heap) := newStream kinds (tracks (runtime s)) in
  let s1 := set_localStream (Some ms) (set_tracks heap s) in
  match ty with
  | audioCall =>
      set_tracks (forEachRef (set_enabled false) (getVideoTracks heap ms) heap) s1
  | videoCall => s1
  end.

Definition isVideoCall (ty : CallType) : bool :=
  match ty with videoCall => true | audioCall => false end.

(** [initiateCall(friendId, type)] *)
Definition initiateCall (friend : Z) (ty : CallType) (gum : GumResult) (s : State) : State :=
  match gum with
  | Granted kinds =>
      let s1 := acquireCallMedia ty kinds s in
      let s2 := set_callInterfaceHidden false s1 in
      let s3 :=
        set_currentCallDetails
          (Some {| friendId := Some friend; peerId := None; callType := ty;
                   isInitiator := true; originalType := ty |}) s2 in
      let s4 := emitIfConnected (InitiateCall friend ty (currentUser (config s3))) s3 in
      set_isAudioEnabled true (set_isVideoEnabled (isVideoCall ty) (set_inCall true s4))
  | Denied => alert "Failed to access camera/microphone. Please check permissions." s
  end.

(** [rejectCall(caller)] *)
Definition rejectCall (caller : Caller) (s : State) : State :=
  emitIfConnected (RejectCall (callerSocketId caller)) s.

(** [acceptCall(caller, type)] *)
Definition acceptCall (caller : Caller) (ty : CallType) (gum : GumResult) (s : State) : State :=
  match gum with
  | Granted kinds =>
      let s1 := acquireCallMedia ty kinds s in
      let s2 := set_callInterfaceHidden false s1 in
      let s3 :=
        set_currentCallDetails
          (Some {| friendId := None; peerId := Some (callerSocketId caller); callType := ty;
                   isInitiator := false; originalType := ty |}) s2 in
      let s4 :=
        emitIfConnected (AcceptCall (callerSocketId caller) (currentUser (config s3))) s3 in
      let s5 := set_isAudioEnabled true (set_isVideoEnabled (isVideoCall ty) (set_inCall true s4)) in
      match peerConnections s5 !! callerSocketId caller with
      | Some _ => s5
      | None => (createPeerConnection (callerSocketId caller) false s5).2
      end
  | Denied => alert "Failed to access camera/microphone. Please check permissions." s
  end.

(** The closure [showIncomingCall] passes to [setTimeout]. *)
Definition autoReject (caller : Caller) (s : State) : State :=
  if incomingCallHidden (page s) then s
  else rejectCall caller (set_incomingCallHidden true s).

(** [showIncomingCall(caller, type)]: the panel is shown, both buttons get
    handlers that capture [caller], and a timeout of 30000 ms is armed. *)
Definition showIncomingCall (caller : Caller) (ty : CallType) (s : State) : State :=
  let s1 := set_incomingCallHidden false s in
  let s2 := set_acceptBtnOnclick (Some (caller, ty)) s1 in
  let s3 := set_rejectBtnOnclick (Some caller) s2 in
  set_timers (timers (runtime s3) ++ [((now (runtime s3) + 30000)%Z, caller)]) s3.

(** [acceptBtn.onclick] and [rejectBtn.onclick] *)
Definition clickAccept (gum : GumResult) (s : State) : State :=
  match acceptBtnOnclick (page s) with
  | Some (caller, ty) => acceptCall caller ty gum (set_incomingCallHidden true s)
  | None => s
  end.

Definition clickReject (s : State) : State :=
  match rejectBtnOnclick (page s) with
  | Some caller => rejectCall caller (set_incomingCallHidden true s)
  | None => s
  end.

(** The clock advances by [ms] milliseconds ([ms] is not negative): the
    timeouts that have come due run in the order they were armed. *)
Definition due (t : Z) (p : Z * Caller) : bool := (p.1 <=? t)%Z.

Definition elapse (ms : Z) (s : State) : State :=
  let t := (now (runtime s) + Z.max 0 ms)%Z in
  let s1 := set_timers (List.filter (λ p, negb (due t p)) (timers (runtime s))) (set_now t s) in
  foldl (λ s p, autoReject p.2 s) s1 (List.filter (due t) (timers (runtime s))).

(** ** Signalling handlers of [connectToSocketIO] *)

(** [socket.on('user-joined-voice')] *)
Definition on_user_joined_voice (socketId : string) (s : State) : State :=
  (createPeerConnection socketId true s).2.

(** [socket.on('existing-voice-users')] *)
Definition on_existing_voice_users (users : list string) (s : State) : State :=
  foldl (λ s user, (createPeerConnection user false s).2) s users.

(** [peerConnections[id].close(); delete peerConnections[id]] under
    [if (peerConnections[id])], then the removal of [video#remote-<id>]
    (its participant box stays). *)
Definition dropPeer (socketId : string) (s : State) : State :=
  let s1 :=
    match peerConnections s !! socketId with
    | Some pc => set_peerConnections (delete socketId (peerConnections s)) (onPc close pc s)
    | None => s
    end in
  set_remoteParticipants (alter (λ _, None) socketId (remoteParticipants (page s1))) s1.

(** [socket.on('user-left-voice')] *)
Definition on_user_left_voice (socketId : string) (s : State) : State :=
  dropPeer socketId s.

(** [socket.on('offer')] *)
Definition on_offer (from : string) (o : SessionDescription) (s : State) : State :=
  let s1 :=
    match peerConnections s !! from with
    | Some _ => s
    | None => (createPeerConnection from false s).2
    end in
  match peerConnections s1 !! from with
  | Some pc =>
      let s2 := onPc (setRemoteDescription o) pc s1 in
      let s3 := onPc (setLocalDescription (localSdp answer)) pc s2 in
      emit (Answer from (localSdp answer)) s3
  | None => s1
  end.

(** [socket.on('answer')] *)
Definition on_answer (from : string) (a : SessionDescription) (s : State) : State :=
  match peerConnections s !! from with
  | Some pc => onPc (setRemoteDescription a) pc s
  | None => s
  end.

(** [socket.on('ice-candidate')]; [data.candidate] may be [null]. *)
Definition on_ice_candidate (from : string) (candidate : option string) (s : State) : State :=
  match peerConnections s !! from, candidate with
  | Some pc, Some c => onPc (addIceCandidate c) pc s
  | _, _ => s
  end.

(** [socket.on('incoming-call')] *)
Definition on_incoming_call (from : option Caller) (ty : CallType) (s : State) : State :=
  match from with
  | Some caller => showIncomingCall caller ty s
  | None => s
  end.

(** [socket.on('call-accepted')] *)
Definition on_call_accepted (from : Caller) (s : State) : State :=
  match peerConnections s !! callerSocketId from with
  | Some _ => s
  | None => (createPeerConnection (callerSocketId from) true s).2
  end.

(** [socket.on('call-rejected')] *)
Definition on_call_rejected (s : State) : State :=
  let s1 := set_callInterfaceHidden true (alert "Call was declined" s) in
  let s2 :=
    match localStream s1 with
    | Some ms =>
        set_localStream None (set_tracks (stopStream (Some ms) (tracks (runtime s1))) s1)
    | None => s1
    end in
  set_inCall false s2.

(** [socket.on('call-ended')] *)
Definition on_call_ended (from : string) (s : State) : State :=
  let s1 := dropPeer from s in
  if bool_decide (size (peerConnections s1) = 0%nat) then leaveVoiceChannel true s1 else s1.

(** ** Camera, screen sharing and the close button *)

(** [setCameraState(enabled)].  [keys] is [Object.keys(peerConnections)]
    as the engine enumerates it when the function runs. *)
Definition setCameraState (en : bool) (keys : list string) (s : State) : State :=
  let s1 := set_isVideoEnabled en s in
  let s2 :=
    match localStream s1 with
    | Some ms =>
        set_tracks
          (forEachRef (set_enabled en) (getVideoTracks (tracks (runtime s1)) ms)
             (tracks (runtime s1))) s1
    | None => s1
    end in
  foldl (λ s socketId, emitIfConnected (VideoToggle socketId en) s) s2 keys.

(** [toggleVideo()] *)
Definition toggleVideo (keys : list string) (s : State) : State :=
  setCameraState (negb (isVideoEnabled (device s))) keys s.

(** [pc.getSenders().find(s => s.track && s.track.kind === 'video')]
    followed by [sender.replaceTrack(track)] when a sender is found: the
    first sender that carries a video track gets [track]. *)
Fixpoint replaceVideoTrack (heap : list MediaStreamTrack) (track : nat) (sent : list nat)
    : list nat :=
  match sent with
  | [] => []
  | r :: rest =>
      if hasKind video heap r then track :: rest
      else r :: replaceVideoTrack heap track rest
  end.

Definition replaceTrack (heap : list MediaStreamTrack) (track : nat) (pc : RTCPeerConnection)
    : RTCPeerConnection :=
  {| pcRemote := pcRemote pc; pcInitiator := pcInitiator pc;
     senders := replaceVideoTrack heap track (senders pc);
     localDescription := localDescription pc; remoteDescription := remoteDescription pc;
     addIceCandidateCalls := addIceCandidateCalls pc; remoteCandidates := remoteCandidates pc;
     iceConnectionState := iceConnectionState pc; restartIceCalls := restartIceCalls pc;
     pcClosed := pcClosed pc |}.

(** The video track goes out on every connection of the table. *)
Definition replaceOutgoingVideo (track : nat) (s : State) : State :=
  set_pcHeap
    (forEachRef (replaceTrack (tracks (runtime s)) track) (values (peerConnections s))
       (pcHeap (runtime s))) s.

(** Outcome of [getDisplayMedia]: a stream with one video track and
    possibly an audio track, or a rejection, whose [error.name] is
    [NotAllowedError] or something else. *)
Inductive DisplayResult :=
  | DisplayGranted (withAudio : bool)
  | DisplayDenied (notAllowed : bool).

(** [toggleScreenShare()].  While sharing: the screen tracks are stopped,
    the first video track of [localStream] goes back out, [screenStream]
    is cleared; without a [localStream] the function throws right after
    stopping the tracks.  Otherwise: the screen stream is stored and its
    video track goes out; without a [localStream] building the preview
    throws, which the [catch] turns into an alert. *)
Definition toggleScreenShare (disp : DisplayResult) (s : State) : State :=
  match screenStream s with
  | Some scr =>
      let s1 := set_tracks (forEachRef stop (streamTracks scr) (tracks (runtime s))) s in
      match localStream s1 with
      | Some ms =>
          let s2 :=
            match head (getVideoTracks (tracks (runtime s1)) ms) with
            | Some videoTrack => replaceOutgoingVideo videoTrack s1
            | None => s1
            end in
          set_screenStream None s2
      | None => s1
      end
  | None =>
      match disp with
      | DisplayGranted withAudio =>
          let (scr, heap) :=
            newStream (video :: if withAudio then [audio] else []) (tracks (runtime s)) in
          let s1 := set_screenStream (Some scr) (set_tracks heap s) in
          let s2 :=
            match head (getVideoTracks heap scr) with
            | Some screenTrack => replaceOutgoingVideo screenTrack s1
            | None => s1
            end in
          match localStream s2 with
          | Some _ => s2
          | None => alert "Error sharing screen. Please try again." s2
          end
      | DisplayDenied true => alert "Screen sharing permission denied" s
      | DisplayDenied false => alert "Error sharing screen. Please try again." s
      end
  end.


(** ** Text channels *)

(** [getChannelIdByName(name)] *)
Definition getChannelIdByName (name : string) : Z :=
  if decide (name = "general") then 1%Z else 2%Z.

(** [getChannelNameById(id)], for a numeric id *)
Definition getChannelNameById (id : Z) : string :=
  if decide (id = 1%Z) then "general" else "random".

Inductive View := friendsView | dmView | serverView | callsView.

#[global] Instance View_eq_dec : EqDecision View.
Proof. solve_decision. Defined.

Record Message := { author : string; text : string }.

(** The message store [channels] and the messages shown in
    [#messagesContainer]. *)
Record Chat := {
  channels : gmap string (list Message);
  messagesContainer : list Message
}.

(** [socket.on('new-message')], with the values of [currentChannel] and
    [currentView] when it runs.  The notification is left out. *)
Definition on_new_message (current : string) (view : View) (channelId : Z) (m : Message)
    (c : Chat) : Chat :=
  let channelName := getChannelNameById channelId in
  let stored :=
    match channels c !! channelName with
    | Some _ => channels c
    | None => <[channelName := []]> (channels c)
    end in
  {| channels := alter (λ l, l ++ [m]) channelName stored;
     messagesContainer :=
       if bool_decide (channelName = current ∧ view = serverView)
       then messagesContainer c ++ [m]
       else messagesContainer c |}.

(** ** The page as a transition system *)

(** What can happen to the page: the user's actions, the messages of the
    relay, the events of the browser. *)
Inductive Event :=
  | SetMicrophone (on : bool)
  | SetSpeaker (on : bool)
  | ToggleAudio
  | JoinVoice (channelName : string) (gum : GumResult)
  | LeaveVoice (force : bool)
  | StartCall (friend : Z) (ty : CallType) (gum : GumResult)
  | ClickAccept (gum : GumResult)
  | ClickReject
  | Elapse (ms : Z)
  | UserJoinedVoice (socketId : string)
  | ExistingVoiceUsers (users : list string)
  | UserLeftVoice (socketId : string)
  | GotOffer (from : string) (o : SessionDescription)
  | GotAnswer (from : string) (a : SessionDescription)
  | GotIceCandidate (from : string) (candidate : option string)
  | IncomingCall (from : option Caller) (ty : CallType)
  | CallAccepted (from : Caller)
  | CallRejected
  | CallEnded (from : string)
  | LocalCandidate (pc : nat) (candidate : option string)
  | IceStateChange (pc : nat) (st : IceConnectionState)
  | RemoteTrack (pc : nat)
  | SocketConnected (up : bool).

Definition step (s : State) (e : Event) : State :=
  match e with
  | SetMicrophone on => setMicrophoneState on false s
  | SetSpeaker on => setSpeakerState on s
  | ToggleAudio => toggleAudio s
  | JoinVoice ch gum => joinVoiceChannel ch gum s
  | LeaveVoice force => leaveVoiceChannel force s
  | StartCall friend ty gum => initiateCall friend ty gum s
  | ClickAccept gum => clickAccept gum s
  | ClickReject => clickReject s
  | Elapse ms => elapse ms s
  | UserJoinedVoice id => on_user_joined_voice id s
  | ExistingVoiceUsers users => on_existing_voice_users users s
  | UserLeftVoice id => on_user_left_voice id s
  | GotOffer from o => on_offer from o s
  | GotAnswer from a => on_answer from a s
  | GotIceCandidate from c => on_ice_candidate from c s
  | IncomingCall from ty => on_incoming_call from ty s
  | CallAccepted from => on_call_accepted from s
  | CallRejected => on_call_rejected s
  | CallEnded from => on_call_ended from s
  | LocalCandidate pc c => onicecandidate pc c s
  | IceStateChange pc st => oniceconnectionstatechange pc st s
  | RemoteTrack pc => ontrack pc s
  | SocketConnected up => set_socketConnected up s
  end.

Definition run (s : State) (evs : list Event) : State := foldl step s evs.

(** The state after the script has loaded: the initial values of its
    globals, an empty page, a connected socket. *)
Definition initial (cfg : Config) : State :=
  {| config := cfg; inCall := false; localStream := None; screenStream := None;
     peerConnections := ∅; currentCallDetails := None;
     device := {| isVideoEnabled := true; isAudioEnabled := true; isMuted := false;
                  preferredMicEnabled := true; isDeafened := false |};
     page := {| callInterfaceHidden := true; incomingCallHidden := true;
                acceptBtnOnclick := None; rejectBtnOnclick := None;
                remoteParticipants := ∅; alerts := [] |};
     runtime := {| tracks := []; pcHeap := []; now := 0; timers := [];
                   socketConnected := true; emitted := [] |} |}.

Definition reachable (cfg : Config) (s : State) : Prop :=
  ∃ evs, s = run (initial cfg) evs.

(** A configuration for the examples. *)
Definition me : Caller := {| callerId := 1; callerName := "me"; callerSocketId := "self" |}.
Definition cfg0 : Config := {| currentChannel := "general"; currentUser := me |}.
Definition idle : State := initial cfg0.

(** ** Notions used in the statements *)

(** [session s id o]: the table of [s] has a session for [id], and [o] is
    the connection object behind it. *)
Definition session (s : State) (id : string) (o : RTCPeerConnection) : Prop :=
  ∃ pc, peerConnections s !! id = Some pc ∧ pcHeap (runtime s) !! pc = Some o.

(** The number of audio tracks of the local stream. *)
Definition audioCount (s : State) : nat :=
  match localStream s with
  | Some ms => length (getAudioTracks (tracks (runtime s)) ms)
  | None => 0
  end.

(** The flag of every audio track of the local stream is
    [preferredMicEnabled && !isDeafened], and outside the deafened state
    [isMuted] is the negation of the preference. *)
Definition mic_consistent (s : State) : Prop :=
  (isDeafened (device s) = false → isMuted (device s) = negb (preferredMicEnabled (device s)))
  ∧ localAudioEnabled s
      = replicate (audioCount s)
          (preferredMicEnabled (device s) && negb (isDeafened (device s))).

(** [same_audio s s']: the step from [s] to [s'] has touched neither the
    local stream, nor a track, nor a device flag. *)
Definition same_audio (s s' : State) : Prop :=
  localStream s' = localStream s
  ∧ tracks (runtime s') = tracks (runtime s)
  ∧ device s' = device s.

(** The events that store a fresh stream for a direct call. *)
Definition acquiresCallMedia (e : Event) : bool :=
  match e with
  | StartCall _ _ (Granted _) | ClickAccept (Granted _) => true
  | _ => false
  end.

(** Every entry of the session table points at a connection that was
    created for that id and has not been closed. *)
Definition sessions_wf (s : State) : Prop :=
  ∀ id pc, peerConnections s !! id = Some pc →
    ∃ o, pcHeap (runtime s) !! pc = Some o ∧ pcRemote o = id ∧ pcClosed o = false.

(** A local stream is held only in a call, and each of its tracks is a
    live track of the heap. *)
Definition stream_live (s : State) : Prop :=
  ∀ ms, localStream s = Some ms →
    inCall s = true
    ∧ ∀ r, r ∈ streamTracks ms →
        ∃ t, tracks (runtime s) !! r = Some t ∧ readyLive t = true.

(** The [enabled] flags of the video tracks of [localStream]. *)
Definition localVideoEnabled (s : State) : list bool :=
  match localStream s with
  | Some ms =>
      omap (λ r, enabled <$> tracks (runtime s) !! r) (getVideoTracks (tracks (runtime s)) ms)
  | None => []
  end.

(** The device flags as the script initialises and resets them. *)
Definition defaultDevice : Device :=
  {| isVideoEnabled := true; isAudioEnabled := true; isMuted := false;
     preferredMicEnabled := true; isDeafened := false |}.

(** The events that only set the microphone. *)
Definition isMicEvent (e : Event) : bool :=
  match e with
  | SetMicrophone _ | ToggleAudio => true
  | _ => false
  end.

(** The state [elapse] starts to run the due timeouts from. *)
Definition advanced (ms : Z) (s : State) : State :=
  set_timers
    (List.filter (λ p, negb (due (now (runtime s) + Z.max 0 ms) p)) (timers (runtime s)))
    (set_now (now (runtime s) + Z.max 0 ms) s).

(** [same_media s s']: the step from [s] to [s'] has touched neither
    [inCall], nor the local stream, nor a track. *)
Definition same_media (s s' : State) : Prop :=
  inCall s' = inCall s
  ∧ localStream s' = localStream s
  ∧ tracks (runtime s') = tracks (runtime s).

(** The volume of every remote video agrees with the deafen flag. *)
Definition volume_follows_deafen (s : State) : Prop :=
  ∀ id v, remoteParticipants (page s) !! id = Some (Some v) →
    v = if isDeafened (device s) then 0%Z else 1%Z.

(** ** States and data of the examples *)

Definition alice : Caller := {| callerId := 7; callerName := "alice"; callerSocketId := "A" |}.
Definition bob : Caller := {| callerId := 8; callerName := "bob"; callerSocketId := "B" |}.

Definition remoteOffer : SessionDescription := {| sdpType := offer; sdp := "v=0" |}.

(** In the voice channel, alone. *)
Definition joined : State := joinVoiceChannel "voice" (Granted [audio; video]) idle.

(** In the voice channel, having received the roster [A]. *)
Definition listening : State := on_existing_voice_users ["A"] joined.

(** In the voice channel, with [A] having joined afterwards. *)
Definition calling : State := on_user_joined_voice "A" joined.

(** In a channel with [A] and [B], then a direct call that was declined. *)
Definition left_behind : State :=
  run idle [JoinVoice "voice" (Granted [audio; video]); ExistingVoiceUsers ["A"; "B"];
            StartCall 5 videoCall (Granted [audio; video]); CallRejected].

(** In the voice channel with [A], the socket disconnected. *)
Definition offline : State :=
  run idle [JoinVoice "voice" (Granted [audio; video]); ExistingVoiceUsers ["A"];
            SocketConnected false].

(** In the voice channel, having received the roster [A, B]. *)
Definition with_two : State :=
  run (initial cfg0)
    [JoinVoice "voice" (Granted [audio; video]); ExistingVoiceUsers ["A"; "B"]].

(** * Properties *)

(** ** In-place updates through references *)

Section ForEachRef.
Context {A : Type} (f : A → A).
Hypothesis f_idem : ∀ x, f (f x) = f x.

Lemma forEachRef_cons r refs (heap : list A) :
  forEachRef f (r :: refs) heap = forEachRef f refs (alter f r heap).
Proof. reflexivity. Qed.

Lemma forEachRef_length refs (heap : list A) :
  length (forEachRef f refs heap) = length heap.
Proof using Type.
  revert heap. induction refs as [|r refs IH]; intros heap; [done|].
  rewrite forEachRef_cons, IH. apply length_alter.
Qed.

(** Every referenced object has been updated, nothing else has. *)
Lemma forEachRef_lookup refs (heap : list A) (i : nat) :
  forEachRef f refs heap !! i =
    if decide (i ∈ refs) then f <$> heap !! i else heap !! i.
Proof using f_idem.
  revert heap. induction refs as [|r refs IH]; intros heap.
  - by rewrite decide_False by apply not_elem_of_nil.
  - rewrite forEachRef_cons, IH.
    destruct (decide (i = r)) as [->|Hne].
    + rewrite list_lookup_alter_eq.
      destruct (decide (r ∈ r :: refs)) as [_|Hnin]; [|by destruct Hnin; left].
      destruct (decide (r ∈ refs)); [|done].
      destruct (heap !! r); simpl; [by rewrite f_idem|done].
    + rewrite list_lookup_alter_ne by done.
      destruct (decide (i ∈ refs)) as [Hin|Hnin];
        destruct (decide (i ∈ r :: refs)) as [Hin'|Hnin']; try done.
      * destruct Hnin'. by right.
      * by apply elem_of_cons in Hin' as [?|?].
Qed.

Lemma forEachRef_lookup_in refs (heap : list A) (i : nat) :
  i ∈ refs → forEachRef f refs heap !! i = f <$> heap !! i.
Proof using f_idem. intros Hin. by rewrite forEachRef_lookup, decide_True. Qed.

Lemma forEachRef_lookup_notin refs (heap : list A) (i : nat) :
  i ∉ refs → forEachRef f refs heap !! i = heap !! i.
Proof using f_idem. intros Hin. by rewrite forEachRef_lookup, decide_False. Qed.
End ForEachRef.

Lemma set_enabled_idem v t : set_enabled v (set_enabled v t) = set_enabled v t.
Proof. reflexivity. Qed.

Lemma stop_idem t : stop (stop t) = stop t.
Proof. reflexivity. Qed.

Lemma close_idem pc : close (close pc) = close pc.
Proof. reflexivity. Qed.

(** ** Opening a peer session *)

Lemma createPeerConnection_existing id isInit s pc :
  peerConnections s !! id = Some pc → createPeerConnection id isInit s = (pc, s).
Proof. intros H. unfold createPeerConnection. by rewrite H. Qed.

(** After the call the table maps the id to the returned reference. *)
Lemma createPeerConnection_lookup id isInit s :
  peerConnections (createPeerConnection id isInit s).2 !! id
    = Some (createPeerConnection id isInit s).1.
Proof.
  unfold createPeerConnection.
  destruct (peerConnections s !! id) as [pc|] eqn:H; simpl; [done|].
  destruct isInit; simpl; apply lookup_insert_eq.
Qed.

(** Entries for other ids are left alone. *)
Lemma createPeerConnection_lookup_ne id id' isInit s :
  id ≠ id' →
  peerConnections (createPeerConnection id isInit s).2 !! id' = peerConnections s !! id'.
Proof.
  intros Hne. unfold createPeerConnection.
  destruct (peerConnections s !! id) as [pc|] eqn:H; simpl; [done|].
  destruct isInit; simpl; by apply lookup_insert_ne.
Qed.

(** A new connection object as [createPeerConnection] leaves it. *)
Lemma createPeerConnection_fresh id isInit s :
  peerConnections s !! id = None →
  ∃ o, pcHeap (runtime (createPeerConnection id isInit s).2)
         !! (createPeerConnection id isInit s).1 = Some o
       ∧ pcRemote o = id ∧ pcInitiator o = isInit ∧ pcClosed o = false
       ∧ localDescription o = (if isInit then Some (localSdp offer) else None).
Proof.
  intros H. unfold createPeerConnection. rewrite H. simpl.
  destruct isInit; simpl.
  - rewrite list_lookup_alter_eq, lookup_app_r, Nat.sub_diag by done. simpl. eauto 10.
  - rewrite lookup_app_r, Nat.sub_diag by done. simpl. eauto 10.
Qed.

(** Connection objects that exist are not touched by opening a session
    for some id, whatever the table says. *)
Lemma createPeerConnection_heap id isInit s pc o :
  pcHeap (runtime s) !! pc = Some o →
  pcHeap (runtime (createPeerConnection id isInit s).2) !! pc = Some o.
Proof.
  intros Ho. unfold createPeerConnection.
  destruct (peerConnections s !! id) as [pc'|] eqn:H; simpl; [done|].
  assert (pc < length (pcHeap (runtime s)))%nat as Hlt by (by eapply lookup_lt_Some).
  destruct isInit; simpl.
  - rewrite list_lookup_alter_ne by lia. by rewrite lookup_app_l.
  - by rewrite lookup_app_l.
Qed.

(** What a responder-side open sends: nothing. *)
Lemma createPeerConnection_responder_emitted id s :
  emitted (runtime (createPeerConnection id false s).2) = emitted (runtime s).
Proof.
  unfold createPeerConnection. by destruct (peerConnections s !! id).
Qed.

(** C5. At most one peer session exists per remote id: the sessions are the
    entries of [peerConnections], a table keyed by the id, and
    [createPeerConnection] called with an id that has an entry returns
    that entry's connection and changes nothing at all, whichever role is
    asked for.  In particular opening twice is opening once. *)
Theorem createPeerConnection_idempotent (id : string) (role role' : bool) (s : State) :
  (∀ pc, peerConnections s !! id = Some pc → createPeerConnection id role s = (pc, s))
  ∧ createPeerConnection id role' (createPeerConnection id role s).2
      = createPeerConnection id role s.
Proof.
  split.
  - intros pc. apply createPeerConnection_existing.
  - rewrite (createPeerConnection_existing _ _ _ _ (createPeerConnection_lookup id role s)).
    by destruct (createPeerConnection id role s).
Qed.

Lemma createPeerConnection_idempotent_witness :
  createPeerConnection "A" true (on_existing_voice_users ["A"] idle)
    = (0%nat, on_existing_voice_users ["A"] idle).
Proof.
  apply (proj1 (createPeerConnection_idempotent "A" true false
                  (on_existing_voice_users ["A"] idle))).
  vm_compute. reflexivity.
Defined.

(** ** Roles in a voice channel *)

Lemma session_createPeerConnection s id o id' isInit :
  session s id o → session (createPeerConnection id' isInit s).2 id o.
Proof.
  intros (pc & Hpc & Ho). exists pc. split.
  - destruct (decide (id' = id)) as [->|Hne].
    + by rewrite (createPeerConnection_existing _ _ _ _ Hpc).
    + by rewrite createPeerConnection_lookup_ne.
  - by apply createPeerConnection_heap.
Qed.

Lemma session_created s id isInit :
  peerConnections s !! id = None →
  ∃ o, session (createPeerConnection id isInit s).2 id o
       ∧ pcRemote o = id ∧ pcInitiator o = isInit ∧ pcClosed o = false
       ∧ localDescription o = (if isInit then Some (localSdp offer) else None).
Proof.
  intros H. destruct (createPeerConnection_fresh id isInit s H) as (o & Ho & Hrest).
  exists o. split; [|done]. eexists. split; [apply createPeerConnection_lookup|done].
Qed.

Lemma on_existing_voice_users_cons u users s :
  on_existing_voice_users (u :: users) s
    = on_existing_voice_users users (createPeerConnection u false s).2.
Proof. reflexivity. Qed.

Lemma on_existing_voice_users_session users s id o :
  session s id o → session (on_existing_voice_users users s) id o.
Proof.
  revert s. induction users as [|u users IH]; intros s H; [done|].
  rewrite on_existing_voice_users_cons. by apply IH, session_createPeerConnection.
Qed.

Lemma on_existing_voice_users_emitted users s :
  emitted (runtime (on_existing_voice_users users s)) = emitted (runtime s).
Proof.
  revert s. induction users as [|u users IH]; intros s; [done|].
  by rewrite on_existing_voice_users_cons, IH, createPeerConnection_responder_emitted.
Qed.

Lemma on_existing_voice_users_responder users s u :
  u ∈ users → peerConnections s !! u = None →
  ∃ o, session (on_existing_voice_users users s) u o
       ∧ pcRemote o = u ∧ pcInitiator o = false ∧ pcClosed o = false
       ∧ localDescription o = None.
Proof.
  revert s. induction users as [|v users IH]; intros s Hin Hnone.
  - by apply elem_of_nil in Hin.
  - rewrite on_existing_voice_users_cons.
    destruct (decide (v = u)) as [->|Hne].
    + destruct (session_created s u false Hnone) as (o & Hs & Hrest).
      exists o. split; [|done]. by apply on_existing_voice_users_session.
    + apply IH.
      * apply elem_of_cons in Hin as [?|?]; [congruence|done].
      * by rewrite createPeerConnection_lookup_ne.
Qed.

(** C1, as the code has it.  The roles are the other way round.  On the
    roster ([existing-voice-users]) every listed member that has no
    session yet gets one in which this process is the responder: the
    connection is created with [isInitiator = false], no local description
    is set and nothing is emitted for the whole roster.  On
    [user-joined-voice] for an id without a session this process is the
    initiator: the connection is created with [isInitiator = true], its
    local description is the offer, and the offer addressed to the new
    member is the one message emitted. *)
Theorem roster_responder_joiner_initiator (s : State) (users : list string) (id : string) :
  (emitted (runtime (on_existing_voice_users users s)) = emitted (runtime s)
   ∧ ∀ u, u ∈ users → peerConnections s !! u = None →
       ∃ o, session (on_existing_voice_users users s) u o
            ∧ pcRemote o = u ∧ pcInitiator o = false ∧ localDescription o = None)
  ∧ (peerConnections s !! id = None →
       ∃ o, session (on_user_joined_voice id s) id o
            ∧ pcRemote o = id ∧ pcInitiator o = true
            ∧ localDescription o = Some (localSdp offer)
            ∧ emitted (runtime (on_user_joined_voice id s))
                = emitted (runtime s) ++ [Offer id (localSdp offer)]).
Proof.
  split; [split|].
  - apply on_existing_voice_users_emitted.
  - intros u Hin Hnone.
    destruct (on_existing_voice_users_responder users s u Hin Hnone) as (o & ? & ? & ? & ? & ?).
    by exists o.
  - intros Hnone. unfold on_user_joined_voice.
    destruct (session_created s id true Hnone) as (o & Hs & ? & ? & ? & ?).
    exists o. repeat split; try done.
    unfold createPeerConnection. by rewrite Hnone.
Qed.

Lemma roster_responder_joiner_initiator_witness :
  (∃ o, session (on_existing_voice_users ["A"; "B"] joined) "B" o
        ∧ pcRemote o = "B" ∧ pcInitiator o = false ∧ localDescription o = None)
  ∧ (∃ o, session (on_user_joined_voice "C" joined) "C" o
          ∧ pcRemote o = "C" ∧ pcInitiator o = true
          ∧ localDescription o = Some (localSdp offer)
          ∧ emitted (runtime (on_user_joined_voice "C" joined))
              = emitted (runtime joined) ++ [Offer "C" (localSdp offer)]).
Proof.
  destruct (roster_responder_joiner_initiator joined ["A"; "B"] "C") as [[_ Hr] Hj].
  split.
  - apply Hr; [|reflexivity]. apply elem_of_cons; right. apply list_elem_of_here.
  - apply Hj. reflexivity.
Defined.

(** C1 as stated fails: after the roster [A, B] has been received, this
    process is not the initiator of the session with [A] (no offer has been
    sent to [A] either), and after [C] has joined it is not the responder
    of the session with [C]. *)
Lemma roster_initiator_counterexample :
  ¬ (∀ u, u ∈ ["A"; "B"] →
       ∃ o, session (on_existing_voice_users ["A"; "B"] joined) u o ∧ pcInitiator o = true)
  ∧ (Offer "A" (localSdp offer)
       ∉ emitted (runtime (on_existing_voice_users ["A"; "B"] joined)))
  ∧ ¬ (∃ o, session (on_user_joined_voice "C" joined) "C" o ∧ pcInitiator o = false).
Proof.
  split; [|split].
  - intros H. destruct (H "A") as (o & (pc & Hpc & Ho) & Hinit); [apply list_elem_of_here|].
    vm_compute in Hpc. injection Hpc as <-. vm_compute in Ho. injection Ho as <-.
    discriminate Hinit.
  - vm_compute. intros H. apply elem_of_cons in H as [H|H]; [discriminate H|].
    by apply elem_of_nil in H.
  - intros (o & (pc & Hpc & Ho) & Hinit).
    vm_compute in Hpc. injection Hpc as <-. vm_compute in Ho. injection Ho as <-.
    discriminate Hinit.
Qed.

(** ** Joining while in a call, and a failed call attempt *)

Lemma with_callInterfaceHidden_id (p : Page) :
  with_callInterfaceHidden (callInterfaceHidden p) p = p.
Proof. by destruct p. Qed.

(** C10. [joinVoiceChannel] called while [inCall] is set touches no call
    state: the flag, both streams, the session table, the call details,
    the device flags, and the whole browser side (tracks, connections,
    emitted messages, timers) are as before, whatever [getUserMedia] would
    have answered.  On the page only the call interface changes: it is
    shown. *)
Theorem joinVoiceChannel_inCall (channelName : string) (gum : GumResult) (s : State) :
  inCall s = true →
  inCall (joinVoiceChannel channelName gum s) = true
  ∧ localStream (joinVoiceChannel channelName gum s) = localStream s
  ∧ screenStream (joinVoiceChannel channelName gum s) = screenStream s
  ∧ peerConnections (joinVoiceChannel channelName gum s) = peerConnections s
  ∧ currentCallDetails (joinVoiceChannel channelName gum s) = currentCallDetails s
  ∧ device (joinVoiceChannel channelName gum s) = device s
  ∧ runtime (joinVoiceChannel channelName gum s) = runtime s
  ∧ page (joinVoiceChannel channelName gum s) = with_callInterfaceHidden false (page s).
Proof.
  intros Hin. unfold joinVoiceChannel. rewrite Hin.
  destruct (callInterfaceHidden (page s)) eqn:Hh; simpl; repeat split; try done.
  by rewrite <- Hh, with_callInterfaceHidden_id.
Qed.

(** A second join, with the call window hidden meanwhile by a non-forced
    leave. *)
Lemma joinVoiceChannel_inCall_witness :
  runtime (joinVoiceChannel "other" Denied (leaveVoiceChannel false joined))
    = runtime (leaveVoiceChannel false joined)
  ∧ callInterfaceHidden (page (leaveVoiceChannel false joined)) = true
  ∧ callInterfaceHidden
      (page (joinVoiceChannel "other" Denied (leaveVoiceChannel false joined))) = false.
Proof.
  destruct (joinVoiceChannel_inCall "other" Denied (leaveVoiceChannel false joined))
    as (_ & _ & _ & _ & _ & _ & Hrt & Hpage); [reflexivity|].
  split; [exact Hrt|]. split; [reflexivity|]. by rewrite Hpage.
Defined.

(** C9. When [getUserMedia] rejects, [initiateCall] changes nothing but
    the list of alerts: [inCall] keeps its value (an idle page stays
    idle), the call interface is not shown, nothing is emitted, no stream
    is stored, no track and no peer connection is created, and the user
    is told of the failure. *)
Theorem initiateCall_denied (friend : Z) (ty : CallType) (s : State) :
  inCall (initiateCall friend ty Denied s) = inCall s
  ∧ callInterfaceHidden (page (initiateCall friend ty Denied s)) = callInterfaceHidden (page s)
  ∧ emitted (runtime (initiateCall friend ty Denied s)) = emitted (runtime s)
  ∧ localStream (initiateCall friend ty Denied s) = localStream s
  ∧ tracks (runtime (initiateCall friend ty Denied s)) = tracks (runtime s)
  ∧ peerConnections (initiateCall friend ty Denied s) = peerConnections s
  ∧ pcHeap (runtime (initiateCall friend ty Denied s)) = pcHeap (runtime s)
  ∧ currentCallDetails (initiateCall friend ty Denied s) = currentCallDetails s
  ∧ device (initiateCall friend ty Denied s) = device s
  ∧ alerts (page (initiateCall friend ty Denied s))
      = alerts (page s) ++ ["Failed to access camera/microphone. Please check permissions."].
Proof. repeat split. Qed.

(** ** Leaving a voice channel *)

Lemma stopStream_lookup ms heap r :
  stopStream ms heap !! r
    = if decide (r ∈ from_option streamTracks [] ms) then stop <$> heap !! r else heap !! r.
Proof.
  destruct ms as [m|]; simpl.
  - apply forEachRef_lookup, stop_idem.
  - destruct (decide (r ∈ [])) as [Hin|_]; [|done]. by apply elem_of_nil in Hin.
Qed.

(** A stopped track stays stopped when another stream is stopped. *)
Lemma stopStream_stopped ms ms' heap r :
  r ∈ streamTracks ms →
  stopStream ms' (stopStream (Some ms) heap) !! r = stop <$> heap !! r.
Proof.
  intros Hin. rewrite !stopStream_lookup. simpl. rewrite (decide_True _ _ Hin).
  destruct (decide _); [|done]. by destruct (heap !! r).
Qed.

Lemma elem_of_values (m : gmap string nat) id pc : m !! id = Some pc → pc ∈ values m.
Proof.
  intros H. unfold values. apply list_elem_of_fmap. exists (id, pc).
  split; [done|]. by apply elem_of_map_to_list.
Qed.

(** C8, as the code has it.  A leave that is not forced changes the
    visibility of the call interface and nothing else: sessions,
    connection objects, the local stream and its tracks, the emitted
    messages and the flags are as before.  A forced leave acts only when
    [inCall] is set.  It then stops every track of the local stream and
    drops the stream, closes the connection of every session and empties
    the table, clears [inCall], and emits [leave-voice-channel] when the
    socket is connected and nothing otherwise.  When [inCall] is not set a
    forced leave changes nothing, whatever sessions there are. *)
Theorem leaveVoiceChannel_effect (s : State) :
  (inCall (leaveVoiceChannel false s) = inCall s
   ∧ localStream (leaveVoiceChannel false s) = localStream s
   ∧ screenStream (leaveVoiceChannel false s) = screenStream s
   ∧ peerConnections (leaveVoiceChannel false s) = peerConnections s
   ∧ currentCallDetails (leaveVoiceChannel false s) = currentCallDetails s
   ∧ device (leaveVoiceChannel false s) = device s
   ∧ runtime (leaveVoiceChannel false s) = runtime s
   ∧ page (leaveVoiceChannel false s)
       = if inCall s then with_callInterfaceHidden true (page s) else page s)
  ∧ (inCall s = false → leaveVoiceChannel true s = s)
  ∧ (inCall s = true →
     inCall (leaveVoiceChannel true s) = false
     ∧ localStream (leaveVoiceChannel true s) = None
     ∧ (∀ ms r t, localStream s = Some ms → r ∈ streamTracks ms →
          tracks (runtime s) !! r = Some t →
          ∃ t', tracks (runtime (leaveVoiceChannel true s)) !! r = Some t'
                ∧ readyLive t' = false ∧ kind t' = kind t ∧ enabled t' = enabled t)
     ∧ peerConnections (leaveVoiceChannel true s) = ∅
     ∧ (∀ id pc o, peerConnections s !! id = Some pc → pcHeap (runtime s) !! pc = Some o →
          ∃ o', pcHeap (runtime (leaveVoiceChannel true s)) !! pc = Some o'
                ∧ pcClosed o' = true ∧ pcRemote o' = pcRemote o)
     ∧ emitted (runtime (leaveVoiceChannel true s))
         = emitted (runtime s)
           ++ (if socketConnected (runtime s)
               then [LeaveVoiceChannel (currentChannel (config s))] else [])).
Proof.
  split; [|split].
  - unfold leaveVoiceChannel. destruct (inCall s) eqn:Hin; simpl; repeat split; done.
  - intros Hin. unfold leaveVoiceChannel. by rewrite Hin.
  - intros Hin. unfold leaveVoiceChannel, emitIfConnected. rewrite Hin. simpl.
    destruct (socketConnected (runtime s)) eqn:Hsock; simpl;
      (split; [done|]); (split; [done|]);
      (split; [|split; [done|split; [|by rewrite ?app_nil_r]]]).
    all: try (intros ms r t Hms Hr Ht; exists (stop t); split; [|done];
              by rewrite Hms, stopStream_stopped, Ht).
    all: intros id pc o Hpc Ho; exists (close o); split; [|done];
         rewrite forEachRef_lookup_in by (apply close_idem || by eapply elem_of_values);
         by rewrite Ho.
Qed.

(** After [joined] has received the roster [A, B]: the connection of the
    session with [B] is closed and the audio track is stopped. *)
Lemma leaveVoiceChannel_effect_witness :
  let s := on_existing_voice_users ["A"; "B"] joined in
  peerConnections (leaveVoiceChannel true s) = ∅
  ∧ (∃ o', pcHeap (runtime (leaveVoiceChannel true s)) !! 1%nat = Some o'
           ∧ pcClosed o' = true ∧ pcRemote o' = "B")
  ∧ (∃ t', tracks (runtime (leaveVoiceChannel true s)) !! 0%nat = Some t'
           ∧ readyLive t' = false ∧ kind t' = audio ∧ enabled t' = true)
  ∧ emitted (runtime (leaveVoiceChannel true s))
      = emitted (runtime s) ++ [LeaveVoiceChannel "general"].
Proof.
  intros s.
  destruct (proj2 (proj2 (leaveVoiceChannel_effect s)))
    as (_ & _ & Ht & Hpcs & Hheap & Hem); [by vm_compute|].
  split; [exact Hpcs|]. split; [|split; [|exact Hem]].
  - apply (Hheap "B" 1%nat (newPeerConnection "B" false [0; 1]%nat)); by vm_compute.
  - apply (Ht {| streamTracks := [0; 1]%nat |} 0%nat (freshTrack audio));
      [by vm_compute|apply list_elem_of_here|by vm_compute].
Defined.

(** C8 as stated fails.  The page joins a channel, receives the roster
    [A, B], starts a direct call and has it declined: [inCall] is cleared
    while both sessions stay open.  A forced leave then returns at its
    first line: the sessions are still in the table, their connections
    open, and the relay hears nothing.  And in a channel with the socket
    disconnected a forced leave emits nothing. *)
Lemma forced_leave_counterexample :
  (reachable cfg0 left_behind
   ∧ leaveVoiceChannel true left_behind = left_behind
   ∧ peerConnections (leaveVoiceChannel true left_behind) !! "A" = Some 0%nat
   ∧ (pcClosed <$> pcHeap (runtime (leaveVoiceChannel true left_behind)) !! 0%nat)
       = Some false
   ∧ ¬ (peerConnections (leaveVoiceChannel true left_behind) = ∅))
  ∧ (reachable cfg0 offline
     ∧ inCall offline = true
     ∧ emitted (runtime (leaveVoiceChannel true offline)) = emitted (runtime offline)).
Proof.
  assert (leaveVoiceChannel true left_behind = left_behind) as Hid.
  { unfold leaveVoiceChannel.
    assert (inCall left_behind = false) as -> by (by vm_compute). done. }
  split.
  - split; [unfold left_behind, idle; by eexists|]. split; [done|]. rewrite Hid.
    assert (peerConnections left_behind !! "A" = Some 0%nat) as HA by (by vm_compute).
    split; [done|]. split; [by vm_compute|].
    intros Hempty. by rewrite Hempty, lookup_empty in HA.
  - split; [unfold offline, idle; by eexists|]. by vm_compute.
Qed.

(** ** The microphone and the speaker *)

Lemma hasKind_forEachRef f k refs heap r :
  (∀ t, f (f t) = f t) → (∀ t, kind (f t) = kind t) →
  hasKind k (forEachRef f refs heap) r = hasKind k heap r.
Proof.
  intros Hidem Hkind. unfold hasKind. rewrite forEachRef_lookup by done.
  destruct (decide (r ∈ refs)); [|done].
  destruct (heap !! r); simpl; [by rewrite Hkind|done].
Qed.

(** Updates that keep the kind of a track keep the answer of
    [getAudioTracks] and [getVideoTracks]. *)
Lemma getTracksOfKind_forEachRef f k refs heap ms :
  (∀ t, f (f t) = f t) → (∀ t, kind (f t) = kind t) →
  getTracksOfKind k (forEachRef f refs heap) ms = getTracksOfKind k heap ms.
Proof.
  intros Hidem Hkind. unfold getTracksOfKind.
  apply List.filter_ext. intros r. by apply hasKind_forEachRef.
Qed.

Lemma hasKind_lookup k heap r :
  hasKind k heap r = true → ∃ t, heap !! r = Some t ∧ kind t = k.
Proof.
  unfold hasKind. destruct (heap !! r) as [t|]; [|done].
  intros H%bool_decide_eq_true. eauto.
Qed.

Lemma elem_of_getTracksOfKind k heap ms r :
  r ∈ getTracksOfKind k heap ms ↔ r ∈ streamTracks ms ∧ hasKind k heap r = true.
Proof. unfold getTracksOfKind. rewrite !list_elem_of_In. apply List.filter_In. Qed.

Lemma omap_const {A B} (g : A → option B) (l : list A) (v : B) :
  (∀ x, x ∈ l → g x = Some v) → omap g l = replicate (length l) v.
Proof.
  induction l as [|x l IH]; intros H; simpl; [done|].
  rewrite (H x) by left. f_equal. apply IH. intros y Hy. apply H. by right.
Qed.

Lemma omap_total_length {A B} (g : A → option B) (l : list A) :
  (∀ x, x ∈ l → is_Some (g x)) → length (omap g l) = length l.
Proof.
  induction l as [|x l IH]; intros H; simpl; [done|].
  destruct (H x) as [y Hy]; [left|]. rewrite Hy. simpl. f_equal.
  apply IH. intros z Hz. apply H. by right.
Qed.

(** The flags of the audio tracks of a stream, after all of them have
    been written. *)
Lemma audio_flags_written v heap ms :
  omap (λ r, enabled <$> forEachRef (set_enabled v) (getAudioTracks heap ms) heap !! r)
       (getAudioTracks (forEachRef (set_enabled v) (getAudioTracks heap ms) heap) ms)
    = replicate (length (getAudioTracks heap ms)) v.
Proof.
  unfold getAudioTracks. rewrite getTracksOfKind_forEachRef by done.
  apply omap_const. intros r Hr.
  rewrite forEachRef_lookup_in by done.
  apply elem_of_getTracksOfKind in Hr as [_ Hk].
  apply hasKind_lookup in Hk as (t & -> & _). done.
Qed.

(** Every audio track of the local stream is an object of the heap, so
    [localAudioEnabled] has one flag per audio track. *)
Lemma localAudioEnabled_length s : length (localAudioEnabled s) = audioCount s.
Proof.
  unfold localAudioEnabled, audioCount. destruct (localStream s) as [ms|]; [|done].
  apply omap_total_length. intros r Hr.
  apply elem_of_getTracksOfKind in Hr as [_ Hk].
  apply hasKind_lookup in Hk as (t & -> & _). by eexists.
Qed.

(** Case analysis on [localStream s] that survives the unfolding of the
    field updates around it. *)
Ltac case_stream s :=
  let ms := fresh "ms" in
  let Hls := fresh "Hls" in
  destruct (localStream s) as [ms|] eqn:Hls; simpl; rewrite ?Hls; simpl.

(** [setMicrophoneState] writes [enabled && !isDeafened] to every audio
    track of the local stream. *)
Lemma setMicrophoneState_audio en skip s :
  localAudioEnabled (setMicrophoneState en skip s)
    = replicate (audioCount s) (en && negb (isDeafened (device s))).
Proof.
  unfold setMicrophoneState, localAudioEnabled, audioCount.
  destruct skip; simpl; case_stream s; try done; apply audio_flags_written.
Qed.

Lemma setMicrophoneState_audioCount en skip s :
  audioCount (setMicrophoneState en skip s) = audioCount s.
Proof.
  unfold setMicrophoneState, audioCount.
  destruct skip; simpl; case_stream s; try done;
    unfold getAudioTracks; by rewrite getTracksOfKind_forEachRef.
Qed.

Lemma setMicrophoneState_device en skip s :
  device (setMicrophoneState en skip s)
    = with_isMuted (negb en)
        (with_isAudioEnabled en
           (if skip then device s else with_preferredMicEnabled en (device s))).
Proof.
  unfold setMicrophoneState.
  destruct skip; simpl; by destruct (localStream s).
Qed.

Lemma setMicrophoneState_page en skip s : page (setMicrophoneState en skip s) = page s.
Proof.
  unfold setMicrophoneState. destruct skip; simpl; by destruct (localStream s).
Qed.

(** C7. Whatever the stored microphone preference [m] is: deafening
    ([setSpeakerState(false)]) keeps [m], disables every audio track of
    the local stream and sets the volume of every remote video to 0;
    undeafening afterwards ([setSpeakerState(true)]) sets every audio
    track to [m], the flags [isAudioEnabled] and [isMuted] to [m] and
    [!m], and the volume of every remote video to 1. *)
Theorem deafen_round_trip (m : bool) (s : State) :
  preferredMicEnabled (device s) = m →
  (isDeafened (device (setSpeakerState false s)) = true
   ∧ preferredMicEnabled (device (setSpeakerState false s)) = m
   ∧ localAudioEnabled (setSpeakerState false s) = replicate (length (localAudioEnabled s)) false
   ∧ remoteParticipants (page (setSpeakerState false s))
       = setVolume 0 <$> remoteParticipants (page s))
  ∧ (isDeafened (device (setSpeakerState true (setSpeakerState false s))) = false
     ∧ preferredMicEnabled (device (setSpeakerState true (setSpeakerState false s))) = m
     ∧ isAudioEnabled (device (setSpeakerState true (setSpeakerState false s))) = m
     ∧ isMuted (device (setSpeakerState true (setSpeakerState false s))) = negb m
     ∧ localAudioEnabled (setSpeakerState true (setSpeakerState false s))
         = replicate (length (localAudioEnabled s)) m
     ∧ remoteParticipants (page (setSpeakerState true (setSpeakerState false s)))
         = setVolume 1 <$> remoteParticipants (page s)).
Proof.
  intros Hm.
  assert (device (setSpeakerState false s)
          = with_isMuted true (with_isAudioEnabled false (with_isDeafened true (device s))))
    as Hdev1 by (unfold setSpeakerState; simpl; by rewrite setMicrophoneState_device).
  assert (page (setSpeakerState false s)
          = with_remoteParticipants (setVolume 0 <$> remoteParticipants (page s)) (page s))
    as Hpage1 by (unfold setSpeakerState; simpl; by rewrite setMicrophoneState_page).
  assert (audioCount (setSpeakerState false s) = audioCount s)
    as Hcount1 by (unfold setSpeakerState; simpl; by rewrite setMicrophoneState_audioCount).
  split.
  - rewrite Hdev1, Hpage1. simpl. repeat split; try done.
    unfold setSpeakerState. simpl.
    by rewrite setMicrophoneState_audio, localAudioEnabled_length.
  - set (s1 := setSpeakerState false s) in *.
    unfold setSpeakerState at 1 2 3 4 5 6. simpl.
    rewrite !setMicrophoneState_device, setMicrophoneState_page, setMicrophoneState_audio.
    simpl. rewrite Hdev1, Hpage1. simpl. rewrite Hm. repeat split; try done.
    + rewrite andb_true_r, localAudioEnabled_length. f_equal.
      unfold audioCount in *. simpl. exact Hcount1.
    + rewrite <- map_fmap_compose. apply map_fmap_ext. by intros id [v|] _.
Qed.

(** Muted by the user, in a channel with one remote video. *)
Lemma deafen_round_trip_witness :
  let s := ontrack 0 (on_user_joined_voice "A" (setMicrophoneState false false joined)) in
  localAudioEnabled (setSpeakerState true (setSpeakerState false s)) = [false]
  ∧ remoteParticipants (page (setSpeakerState false s)) !! "A" = Some (Some 0%Z)
  ∧ remoteParticipants (page (setSpeakerState true (setSpeakerState false s))) !! "A"
      = Some (Some 1%Z).
Proof.
  intros s.
  destruct (deafen_round_trip false s) as [(_ & _ & _ & Hv0) (_ & _ & _ & _ & Ha & Hv1)];
    [reflexivity|].
  split; [exact Ha|]. split; [by rewrite Hv0|by rewrite Hv1].
Defined.

(** ** Connectivity failure *)

Lemma run_cons s e evs : run s (e :: evs) = run (step s e) evs.
Proof. reflexivity. Qed.

Lemma run_app s evs evs' : run s (evs ++ evs') = run (run s evs) evs'.
Proof. apply foldl_app. Qed.

(** One [failed] event: the handler calls [restartIce] on the connection
    and nothing outside the connection changes. *)
Lemma oniceconnectionstatechange_failed s pc :
  pcHeap (runtime (oniceconnectionstatechange pc ice_failed s)) !! pc
    = (λ o, restartIce (setIceConnectionState ice_failed o)) <$> pcHeap (runtime s) !! pc
  ∧ peerConnections (oniceconnectionstatechange pc ice_failed s) = peerConnections s
  ∧ emitted (runtime (oniceconnectionstatechange pc ice_failed s)) = emitted (runtime s)
  ∧ page (oniceconnectionstatechange pc ice_failed s) = page s
  ∧ inCall (oniceconnectionstatechange pc ice_failed s) = inCall s
  ∧ localStream (oniceconnectionstatechange pc ice_failed s) = localStream s.
Proof.
  unfold oniceconnectionstatechange, onPc. simpl. repeat split.
  rewrite !list_lookup_alter_eq. by destruct (pcHeap (runtime s) !! pc).
Qed.

(** C4, as the code has it.  Every change of the ICE connection state to
    [failed] makes the handler call [restartIce]: after [n] failures of a
    connection its [restartIce] has been called [n] more times.  Nothing
    is escalated: the connection stays open and in the table, nothing is
    emitted, no alert is shown, and [inCall] and the local stream are as
    before. *)
Theorem restartIce_on_every_failure (n : nat) (s : State) (pc : nat) (o : RTCPeerConnection) :
  pcHeap (runtime s) !! pc = Some o →
  (∃ o', pcHeap (runtime (run s (replicate n (IceStateChange pc ice_failed)))) !! pc = Some o'
         ∧ restartIceCalls o' = (restartIceCalls o + n)%nat
         ∧ pcClosed o' = pcClosed o)
  ∧ peerConnections (run s (replicate n (IceStateChange pc ice_failed))) = peerConnections s
  ∧ emitted (runtime (run s (replicate n (IceStateChange pc ice_failed)))) = emitted (runtime s)
  ∧ page (run s (replicate n (IceStateChange pc ice_failed))) = page s
  ∧ inCall (run s (replicate n (IceStateChange pc ice_failed))) = inCall s
  ∧ localStream (run s (replicate n (IceStateChange pc ice_failed))) = localStream s.
Proof.
  revert s o. induction n as [|n IH]; intros s o Ho.
  - simpl. split; [|done]. exists o. by rewrite Nat.add_0_r.
  - change (replicate (S n) (IceStateChange pc ice_failed))
      with (IceStateChange pc ice_failed :: replicate n (IceStateChange pc ice_failed)).
    rewrite run_cons.
    change (step s (IceStateChange pc ice_failed))
      with (oniceconnectionstatechange pc ice_failed s).
    destruct (oniceconnectionstatechange_failed s pc) as (Hheap & Hpcs & Hem & Hpage & Hin & Hls).
    rewrite Ho in Hheap. simpl in Hheap.
    destruct (IH (oniceconnectionstatechange pc ice_failed s) _ Hheap) as ((o' & Ho' & Hcalls & Hclosed) & Hpcs' & Hem' & Hpage' & Hin' & Hls').
    split.
    + exists o'. split; [done|]. split; [|done]. rewrite Hcalls. simpl. lia.
    + rewrite Hpcs', Hem', Hpage', Hin', Hls'. done.
Qed.

Lemma restartIce_on_every_failure_witness :
  ∃ o', pcHeap (runtime (run calling (replicate 3 (IceStateChange 0 ice_failed)))) !! 0%nat
          = Some o'
        ∧ restartIceCalls o' = 3%nat ∧ pcClosed o' = false.
Proof.
  destruct (restartIce_on_every_failure 3 calling 0
              (setLocalDescription (localSdp offer)
                 (newPeerConnection "A" true [0; 1]%nat)))
    as [(o' & Ho' & Hcalls & Hclosed) _]; [reflexivity|].
  exists o'. split; [exact Ho'|]. split; [exact Hcalls|exact Hclosed].
Defined.

(** C4 as stated fails: when the connection to [A] fails, is restarted,
    and fails again, [restartIce] is called a second time, and no signal
    of any kind reaches the rest of the page. *)
Lemma single_restart_counterexample :
  let s := run calling [IceStateChange 0 ice_failed; IceStateChange 0 ice_failed] in
  ¬ (∀ o, pcHeap (runtime s) !! 0%nat = Some o → (restartIceCalls o ≤ 1)%nat)
  ∧ (restartIceCalls <$> pcHeap (runtime s) !! 0%nat) = Some 2%nat
  ∧ peerConnections s !! "A" = Some 0%nat
  ∧ alerts (page s) = []
  ∧ emitted (runtime s) = emitted (runtime calling)
  ∧ inCall s = true.
Proof.
  simpl. split; [|by vm_compute].
  intros H. specialize (H _ eq_refl). vm_compute in H. lia.
Qed.

(** ** Remote ICE candidates *)

Lemma on_offer_existing from d s pc :
  peerConnections s !! from = Some pc →
  on_offer from d s
    = emit (Answer from (localSdp answer))
        (onPc (setLocalDescription (localSdp answer)) pc (onPc (setRemoteDescription d) pc s)).
Proof. intros H. unfold on_offer. by rewrite !H. Qed.

(** C3, as the code has it.  A candidate that arrives for an id with a
    session is passed to [addIceCandidate] of that session's connection at
    once, whether or not a remote description is set.  It takes effect
    only when the remote description is already set; otherwise it is
    lost.  The script keeps no buffer: an offer or an answer that arrives
    afterwards leaves the accepted candidates as they were. *)
Theorem ice_candidate_not_buffered (s : State) (from c : string) (pc : nat)
    (o : RTCPeerConnection) :
  peerConnections s !! from = Some pc →
  pcHeap (runtime s) !! pc = Some o →
  pcHeap (runtime (on_ice_candidate from (Some c) s)) !! pc = Some (addIceCandidate c o)
  ∧ addIceCandidateCalls (addIceCandidate c o) = addIceCandidateCalls o ++ [c]
  ∧ remoteCandidates (addIceCandidate c o)
      = match remoteDescription o with
        | Some _ => remoteCandidates o ++ [c]
        | None => remoteCandidates o
        end
  ∧ (∀ d, remoteCandidates
            <$> pcHeap (runtime (on_offer from d (on_ice_candidate from (Some c) s))) !! pc
          = Some (remoteCandidates (addIceCandidate c o)))
  ∧ (∀ d, remoteCandidates
            <$> pcHeap (runtime (on_answer from d (on_ice_candidate from (Some c) s))) !! pc
          = Some (remoteCandidates (addIceCandidate c o))).
Proof.
  intros Hpc Ho.
  assert (peerConnections (on_ice_candidate from (Some c) s) !! from = Some pc) as Hpc'
    by (unfold on_ice_candidate; by rewrite Hpc).
  assert (pcHeap (runtime (on_ice_candidate from (Some c) s)) !! pc = Some (addIceCandidate c o))
    as Ho'.
  { unfold on_ice_candidate. rewrite Hpc. simpl. by rewrite list_lookup_alter_eq, Ho. }
  repeat split; try done.
  - intros d. rewrite (on_offer_existing _ _ _ _ Hpc'). simpl.
    by rewrite !list_lookup_alter_eq, Ho'.
  - intros d. unfold on_answer. rewrite Hpc'. simpl.
    by rewrite list_lookup_alter_eq, Ho'.
Qed.

Lemma ice_candidate_not_buffered_witness :
  pcHeap (runtime (on_ice_candidate "A" (Some "c1") listening)) !! 0%nat
    = Some (addIceCandidate "c1" (newPeerConnection "A" false [0; 1]%nat))
  ∧ remoteCandidates
      <$> pcHeap (runtime (on_offer "A" remoteOffer
                             (on_ice_candidate "A" (Some "c1") listening))) !! 0%nat
    = Some [].
Proof.
  destruct (ice_candidate_not_buffered listening "A" "c1" 0
              (newPeerConnection "A" false [0; 1]%nat))
    as (Hnow & _ & _ & Hoffer & _); [reflexivity|reflexivity|].
  split; [exact Hnow|exact (Hoffer remoteOffer)].
Defined.

(** C3 as stated fails: a candidate from [A] arrives before [A]'s offer.
    It is handed to the connection right away, although no remote
    description is set, and once the offer has arrived and the remote
    description is set the candidate has not been applied. *)
Lemma candidate_buffer_counterexample :
  let s := run listening [GotIceCandidate "A" (Some "c1"); GotOffer "A" remoteOffer] in
  (addIceCandidateCalls <$> pcHeap (runtime (step listening (GotIceCandidate "A" (Some "c1"))))
                              !! 0%nat) = Some ["c1"]
  ∧ (remoteDescription <$> pcHeap (runtime s) !! 0%nat) = Some (Some remoteOffer)
  ∧ ¬ (∃ o, session s "A" o ∧ "c1" ∈ remoteCandidates o).
Proof.
  simpl. split; [by vm_compute|]. split; [by vm_compute|].
  intros (o & (pc & Hpc & Ho) & Hin).
  vm_compute in Hpc. injection Hpc as <-. vm_compute in Ho. injection Ho as <-.
  simpl in Hin. by apply elem_of_nil in Hin.
Qed.

(** ** The microphone after a fresh stream *)

Lemma reachable_run cfg evs : reachable cfg (run (initial cfg) evs).
Proof. by exists evs. Qed.

(** C2 at its failing inputs.  The user deafens (or mutes) in the settings
    and then starts a call, or accepts one: the state is reachable, the
    fresh audio track is enabled, and [preferredMicEnabled && !isDeafened]
    is false.  [initiateCall] and [acceptCall] store the stream without
    the check of [isMuted || isDeafened] that [initializeMedia] makes. *)
Theorem call_media_ignores_mute_and_deafen :
  (let s := run idle [SetSpeaker false; StartCall 5 audioCall (Granted [audio; video])] in
   reachable cfg0 s
   ∧ localAudioEnabled s = [true]
   ∧ preferredMicEnabled (device s) && negb (isDeafened (device s)) = false)
  ∧ (let s := run idle [SetMicrophone false; StartCall 5 videoCall (Granted [audio; video])] in
     reachable cfg0 s
     ∧ localAudioEnabled s = [true]
     ∧ preferredMicEnabled (device s) && negb (isDeafened (device s)) = false)
  ∧ (let s := run idle [SetSpeaker false; IncomingCall (Some alice) audioCall;
                        ClickAccept (Granted [audio; video])] in
     reachable cfg0 s
     ∧ localAudioEnabled s = [true]
     ∧ preferredMicEnabled (device s) && negb (isDeafened (device s)) = false).
Proof.
  repeat split; try apply reachable_run; by vm_compute.
Qed.

(** ** The incoming call panel *)

(** C6 at its failing input.  A call from [alice] arrives at 0 ms and is
    rejected by the user at 5000 ms; a call from [bob] arrives at
    10000 ms.  At 30000 ms the timeout armed for [alice]'s call runs,
    finds the panel visible, hides it and sends [alice] a second
    [reject-call]: the reject within 30 s has not kept the auto-reject
    from firing.  [bob]'s call is answered by nobody, and at 40000 ms, 30 s
    after it arrived, its timeout finds the panel hidden and sends
    nothing: [bob] never gets an auto-reject. *)
Theorem stale_timeout_rejects_wrong_call :
  let ringing :=
    run idle [IncomingCall (Some alice) audioCall; Elapse 5000; ClickReject;
              Elapse 5000; IncomingCall (Some bob) audioCall] in
  let at30 := step ringing (Elapse 20000) in
  let at40 := step at30 (Elapse 10000) in
  (emitted (runtime ringing) = [RejectCall "A"]
   ∧ incomingCallHidden (page ringing) = false
   ∧ timers (runtime ringing) = [(30000%Z, alice); (40000%Z, bob)])
  ∧ (now (runtime at30) = 30000%Z
     ∧ emitted (runtime at30) = [RejectCall "A"; RejectCall "A"]
     ∧ incomingCallHidden (page at30) = true)
  ∧ (now (runtime at40) = 40000%Z
     ∧ emitted (runtime at40) = [RejectCall "A"; RejectCall "A"]
     ∧ timers (runtime at40) = []).
Proof. by vm_compute. Qed.

(** For one call at a time the timeout does what its comment says. *)

Lemma autoReject_hidden c s : incomingCallHidden (page s) = true → autoReject c s = s.
Proof. intros H. unfold autoReject. by rewrite H. Qed.

Lemma foldl_autoReject_hidden (l : list (Z * Caller)) s :
  incomingCallHidden (page s) = true → foldl (λ s p, autoReject p.2 s) s l = s.
Proof.
  intros H. induction l as [|p l IH]; simpl; [done|]. by rewrite autoReject_hidden.
Qed.

(** Once the panel is hidden, by a click on accept or on reject, the
    timeouts that come due send nothing. *)
Lemma elapse_hidden ms s :
  incomingCallHidden (page s) = true →
  emitted (runtime (elapse ms s)) = emitted (runtime s)
  ∧ incomingCallHidden (page (elapse ms s)) = true.
Proof.
  intros H. unfold elapse. rewrite foldl_autoReject_hidden by done. done.
Qed.

Lemma clickReject_hides s c :
  rejectBtnOnclick (page s) = Some c → incomingCallHidden (page (clickReject s)) = true.
Proof.
  intros H. unfold clickReject, rejectCall, emitIfConnected. rewrite H. simpl.
  by destruct (socketConnected (runtime s)).
Qed.

(** A call that arrives when no timeout is pending and is answered by
    nobody is rejected when 30000 ms have passed. *)
Lemma single_call_timeout s caller ty :
  timers (runtime s) = [] → socketConnected (runtime s) = true →
  emitted (runtime (run s [IncomingCall (Some caller) ty; Elapse 30000]))
    = emitted (runtime s) ++ [RejectCall (callerSocketId caller)]
  ∧ incomingCallHidden (page (run s [IncomingCall (Some caller) ty; Elapse 30000])) = true
  ∧ timers (runtime (run s [IncomingCall (Some caller) ty; Elapse 30000])) = [].
Proof.
  intros Ht Hsock. unfold run. simpl foldl.
  unfold elapse, showIncomingCall. simpl. rewrite Ht. simpl.
  unfold due. simpl. rewrite Z.leb_refl. simpl.
  unfold autoReject, rejectCall, emitIfConnected. simpl. by rewrite Hsock.
Qed.

(** The same call rejected by the user after [t < 30000] ms: the user's
    [reject-call] is the only one. *)
Lemma single_call_answered s caller ty (t : Z) :
  timers (runtime s) = [] → socketConnected (runtime s) = true → (0 ≤ t < 30000)%Z →
  emitted (runtime (run s [IncomingCall (Some caller) ty; Elapse t; ClickReject;
                           Elapse (30000 - t)]))
    = emitted (runtime s) ++ [RejectCall (callerSocketId caller)].
Proof.
  intros Ht Hsock Hlt.
  change [IncomingCall (Some caller) ty; Elapse t; ClickReject; Elapse (30000 - t)]
    with ([IncomingCall (Some caller) ty; Elapse t; ClickReject] ++ [Elapse (30000 - t)]).
  rewrite run_app.
  set (s3 := run s [IncomingCall (Some caller) ty; Elapse t; ClickReject]).
  assert (emitted (runtime s3) = emitted (runtime s) ++ [RejectCall (callerSocketId caller)]
          ∧ incomingCallHidden (page s3) = true) as [Hem Hhid].
  { subst s3. unfold run. simpl foldl.
    unfold elapse, showIncomingCall. simpl. rewrite Ht. simpl.
    unfold due. simpl.
    replace (now (runtime s) + 30000 <=? now (runtime s) + Z.max 0 t)%Z with false
      by (symmetry; apply Z.leb_gt; lia).
    simpl. unfold clickReject, rejectCall, emitIfConnected. simpl. by rewrite Hsock. }
  change (run s3 [Elapse (30000 - t)]) with (elapse (30000 - t) s3).
  by rewrite (proj1 (elapse_hidden _ _ Hhid)).
Qed.

(** ** The microphone invariant away from direct calls *)

Lemma same_audio_refl s : same_audio s s.
Proof. done. Qed.

Lemma same_audio_trans s1 s2 s3 : same_audio s1 s2 → same_audio s2 s3 → same_audio s1 s3.
Proof. intros (? & ? & ?) (? & ? & ?). repeat split; congruence. Qed.

Lemma same_audio_consistent s s' : same_audio s s' → mic_consistent s → mic_consistent s'.
Proof.
  intros (Hls & Htr & Hdev) [Hflags Haudio].
  unfold mic_consistent, localAudioEnabled, audioCount in *.
  rewrite Hls, Htr, Hdev. done.
Qed.

Lemma no_stream_consistent s :
  localStream s = None →
  (isDeafened (device s) = false → isMuted (device s) = negb (preferredMicEnabled (device s))) →
  mic_consistent s.
Proof.
  intros Hls Hflags. split; [done|].
  unfold localAudioEnabled, audioCount. by rewrite Hls.
Qed.

Ltac same_audio :=
  unfold same_audio; repeat (simpl; case_match); simpl; done.

Lemma same_audio_createPeerConnection id isInit s :
  same_audio s (createPeerConnection id isInit s).2.
Proof. unfold createPeerConnection, emit, onPc. same_audio. Qed.

Lemma same_audio_on_existing_voice_users users s :
  same_audio s (on_existing_voice_users users s).
Proof.
  revert s. induction users as [|u users IH]; intros s; [done|].
  rewrite on_existing_voice_users_cons.
  eapply same_audio_trans; [apply same_audio_createPeerConnection|apply IH].
Qed.

Lemma same_audio_dropPeer id s : same_audio s (dropPeer id s).
Proof. unfold dropPeer, onPc. same_audio. Qed.

Lemma same_audio_on_offer from d s : same_audio s (on_offer from d s).
Proof.
  unfold on_offer.
  destruct (peerConnections s !! from) as [pc|] eqn:Hpc.
  - rewrite Hpc. done.
  - eapply same_audio_trans; [apply (same_audio_createPeerConnection from false)|].
    unfold emit, onPc. same_audio.
Qed.

Lemma same_audio_autoReject c s : same_audio s (autoReject c s).
Proof. unfold autoReject, rejectCall, emitIfConnected, emit. same_audio. Qed.

Lemma same_audio_elapse ms s : same_audio s (elapse ms s).
Proof.
  unfold elapse.
  set (s1 := set_timers _ _). assert (same_audio s s1) as H by done. clearbody s1.
  revert s1 H. induction (List.filter _ _) as [|p l IH]; intros s1 H; [done|].
  simpl. apply IH. eapply same_audio_trans; [exact H|apply same_audio_autoReject].
Qed.

(** A forced leave drops the stream and resets the flags. *)
Lemma leaveVoiceChannel_forced_consistent s :
  mic_consistent s → mic_consistent (leaveVoiceChannel true s).
Proof.
  intros H. unfold leaveVoiceChannel.
  destruct (inCall s); simpl; [|done].
  apply no_stream_consistent; [|done].
  unfold emitIfConnected. by destruct (socketConnected _).
Qed.

(** Fresh tracks: a reference of the new stream points at a fresh track. *)
Lemma newStream_lookup kinds heap r :
  r ∈ streamTracks (newStream kinds heap).1 →
  ∃ k, (newStream kinds heap).2 !! r = Some (freshTrack k).
Proof.
  simpl. intros Hr%elem_of_seq.
  rewrite lookup_app_r by lia.
  destruct (lookup_lt_is_Some_2 (freshTrack <$> kinds) (r - length heap)) as [t Ht].
  { rewrite length_fmap. lia. }
  rewrite Ht. apply list_lookup_fmap_Some in Ht as (k & -> & _). eauto.
Qed.

Lemma newStream_audio_enabled kinds heap :
  omap (λ r, enabled <$> (newStream kinds heap).2 !! r)
       (getAudioTracks (newStream kinds heap).2 (newStream kinds heap).1)
    = replicate (length (getAudioTracks (newStream kinds heap).2 (newStream kinds heap).1)) true.
Proof.
  apply omap_const. intros r Hr.
  apply elem_of_getTracksOfKind in Hr as [Hr _].
  destruct (newStream_lookup kinds heap r Hr) as [k ->]. done.
Qed.

(** [initializeMedia] leaves the fresh audio tracks consistent with the
    flags: this is its check of [isMuted || isDeafened]. *)
Lemma initializeMedia_consistent kinds s s' :
  mic_consistent s → initializeMedia (Granted kinds) s = Some s' → mic_consistent s'.
Proof.
  intros [Hflags _] Hs'. unfold initializeMedia in Hs'.
  pose proof (newStream_audio_enabled kinds (tracks (runtime s))) as Hfresh.
  destruct (newStream kinds (tracks (runtime s))) as [ms heap] eqn:Hnew.
  simpl in Hs', Hfresh. injection Hs' as <-.
  destruct (isDeafened (device s)) eqn:Hdeaf.
  - rewrite orb_true_r. split; simpl; [by rewrite Hdeaf|].
    unfold localAudioEnabled, audioCount. simpl.
    rewrite Hdeaf, andb_false_r, audio_flags_written.
    unfold getAudioTracks. by rewrite getTracksOfKind_forEachRef.
  - specialize (Hflags eq_refl). rewrite orb_false_r.
    destruct (isMuted (device s)) eqn:Hmuted.
    + split; simpl; [by rewrite Hmuted|].
      unfold localAudioEnabled, audioCount. simpl.
      rewrite audio_flags_written.
      unfold getAudioTracks. rewrite getTracksOfKind_forEachRef by done.
      destruct (preferredMicEnabled (device s)); [done|]. done.
    + split; simpl; [by rewrite Hmuted|].
      unfold localAudioEnabled, audioCount. simpl. rewrite Hfresh, Hdeaf.
      destruct (preferredMicEnabled (device s)); done.
Qed.

Lemma joinVoiceChannel_consistent ch gum s :
  mic_consistent s → mic_consistent (joinVoiceChannel ch gum s).
Proof.
  intros H. unfold joinVoiceChannel.
  destruct (inCall s).
  - eapply same_audio_consistent; [|exact H]. same_audio.
  - destruct gum as [kinds|].
    + destruct (initializeMedia (Granted kinds) _) as [s2|] eqn:Hinit; [|done].
      apply initializeMedia_consistent in Hinit;
        [|by eapply same_audio_consistent; [|exact H]].
      eapply same_audio_consistent; [|exact Hinit].
      unfold emitIfConnected, emit. same_audio.
    + simpl. apply leaveVoiceChannel_forced_consistent.
      by eapply same_audio_consistent; [|exact H].
Qed.

Lemma setMicrophoneState_consistent en s :
  mic_consistent s → mic_consistent (setMicrophoneState en false s).
Proof.
  intros _. split.
  - by rewrite setMicrophoneState_device.
  - rewrite setMicrophoneState_audio, setMicrophoneState_audioCount,
      setMicrophoneState_device. done.
Qed.

Lemma setSpeakerState_consistent en s :
  mic_consistent s → mic_consistent (setSpeakerState en s).
Proof.
  intros _. unfold setSpeakerState. destruct en; simpl.
  - split.
    + by rewrite setMicrophoneState_device.
    + rewrite setMicrophoneState_audio, setMicrophoneState_audioCount,
        setMicrophoneState_device. done.
  - split.
    + by rewrite setMicrophoneState_device.
    + rewrite setMicrophoneState_audio, setMicrophoneState_audioCount,
        setMicrophoneState_device. simpl. by rewrite andb_false_r.
Qed.

Lemma step_consistent s e :
  acquiresCallMedia e = false → mic_consistent s → mic_consistent (step s e).
Proof.
  intros He H.
  assert (∀ s', same_audio s s' → mic_consistent s') as frame
    by (intros s' Hs'; by eapply same_audio_consistent).
  destruct e; simpl in *.
  - by apply setMicrophoneState_consistent.
  - by apply setSpeakerState_consistent.
  - by apply setMicrophoneState_consistent.
  - by apply joinVoiceChannel_consistent.
  - destruct force; [by apply leaveVoiceChannel_forced_consistent|].
    apply frame. unfold leaveVoiceChannel. same_audio.
  - destruct gum; [done|]. apply frame. same_audio.
  - destruct gum; [done|]. apply frame. unfold clickAccept, acceptCall, alert. same_audio.
  - apply frame. unfold clickReject, rejectCall, emitIfConnected, emit. same_audio.
  - apply frame, same_audio_elapse.
  - apply frame, same_audio_createPeerConnection.
  - apply frame, same_audio_on_existing_voice_users.
  - apply frame, same_audio_dropPeer.
  - apply frame, same_audio_on_offer.
  - apply frame. unfold on_answer, onPc. same_audio.
  - apply frame. unfold on_ice_candidate, onPc. same_audio.
  - apply frame. unfold on_incoming_call, showIncomingCall. same_audio.
  - apply frame. unfold on_call_accepted. destruct (peerConnections s !! _); [done|].
    apply same_audio_createPeerConnection.
  - destruct H as [Hflags Haudio]. unfold on_call_rejected.
    apply no_stream_consistent; simpl; by destruct (localStream s) eqn:Hls.
  - unfold on_call_ended. case_bool_decide.
    + apply leaveVoiceChannel_forced_consistent, frame, same_audio_dropPeer.
    + apply frame, same_audio_dropPeer.
  - apply frame. unfold onicecandidate, emit. same_audio.
  - apply frame. unfold oniceconnectionstatechange, onPc. same_audio.
  - apply frame. unfold ontrack. same_audio.
  - apply frame. same_audio.
Qed.

(** In every state reached without a direct call being started or
    accepted, every audio track of the local stream carries
    [preferredMicEnabled && !isDeafened]. *)
Lemma mic_consistent_invariant cfg evs :
  forallb (λ e, negb (acquiresCallMedia e)) evs = true →
  mic_consistent (run (initial cfg) evs).
Proof.
  assert (mic_consistent (initial cfg)) as H0 by (by split).
  revert H0. generalize (initial cfg) as s.
  induction evs as [|e evs IH]; intros s Hs Hall; [done|].
  simpl in Hall. apply andb_true_iff in Hall as [He Hall].
  rewrite run_cons. apply IH; [|done].
  apply step_consistent; [|done]. by destruct (acquiresCallMedia e).
Qed.

(** ** Direct calls store the stream as it comes *)

Lemma audio_not_video heap ms r :
  r ∈ getAudioTracks heap ms → r ∉ getVideoTracks heap ms.
Proof.
  intros [_ Ha]%elem_of_getTracksOfKind [_ Hv]%elem_of_getTracksOfKind.
  apply hasKind_lookup in Ha as (t & Ht & Hka).
  apply hasKind_lookup in Hv as (t' & Ht' & Hkv). congruence.
Qed.

Lemma omap_agree {A B} (g h : A → option B) (l : list A) :
  (∀ x, x ∈ l → g x = h x) → omap g l = omap h l.
Proof.
  induction l as [|x l IH]; intros H; simpl; [done|].
  assert (omap g l = omap h l) as Hl by (apply IH; intros y Hy; apply H; by right).
  rewrite (H x) by left. destruct (h x); [f_equal|]; exact Hl.
Qed.

(** After [acquireCallMedia] every audio track of the stored stream is
    enabled: disabling the video tracks of an audio call leaves them
    alone. *)
Lemma acquireCallMedia_audio ty kinds s :
  localAudioEnabled (acquireCallMedia ty kinds s)
    = replicate (audioCount (acquireCallMedia ty kinds s)) true.
Proof.
  unfold acquireCallMedia, localAudioEnabled, audioCount.
  pose proof (newStream_audio_enabled kinds (tracks (runtime s))) as Hfresh.
  destruct (newStream kinds (tracks (runtime s))) as [ms heap] eqn:Hnew.
  simpl in Hfresh. destruct ty; simpl; [|done].
  unfold getAudioTracks, getVideoTracks in *.
  rewrite getTracksOfKind_forEachRef by done.
  rewrite <- Hfresh. apply omap_agree. intros r Hr.
  rewrite forEachRef_lookup_notin; [done|done|].
  by apply audio_not_video.
Qed.

(** [initiateCall] consults neither [isMuted] nor [isDeafened], and keeps
    both flags: whatever they are, the audio tracks of the call are
    enabled. *)
Lemma initiateCall_audio friend ty kinds s :
  localAudioEnabled (initiateCall friend ty (Granted kinds) s)
    = replicate (audioCount (initiateCall friend ty (Granted kinds) s)) true
  ∧ isDeafened (device (initiateCall friend ty (Granted kinds) s)) = isDeafened (device s)
  ∧ preferredMicEnabled (device (initiateCall friend ty (Granted kinds) s))
      = preferredMicEnabled (device s).
Proof.
  pose proof (acquireCallMedia_audio ty kinds s) as Ha.
  unfold initiateCall, emitIfConnected, localAudioEnabled, audioCount in *.
  unfold acquireCallMedia in *.
  destruct (newStream kinds (tracks (runtime s))) as [ms heap].
  destruct (socketConnected _), ty; simpl in *; done.
Qed.

(** * Further properties of the call code *)

(** ** What one advance of the clock can do *)

Lemma rejectCall_hidden c s :
  incomingCallHidden (page (rejectCall c s)) = incomingCallHidden (page s).
Proof. unfold rejectCall, emitIfConnected. by destruct (socketConnected _). Qed.

Lemma foldl_autoReject_cases (l : list (Z * Caller)) s :
  foldl (λ s p, autoReject p.2 s) s l = s
  ∨ ∃ c, c ∈ l.*2 ∧ incomingCallHidden (page s) = false
         ∧ foldl (λ s p, autoReject p.2 s) s l
             = rejectCall c (set_incomingCallHidden true s).
Proof.
  revert s. induction l as [|p l IH]; intros s; [by left|].
  simpl. unfold autoReject at 2 4. destruct (incomingCallHidden (page s)) eqn:Hh.
  - destruct (IH s) as [->|(c & Hc & ? & ?)]; [by left|congruence].
  - right. exists p.2. split; [left|]. split; [done|].
    apply foldl_autoReject_hidden. by rewrite rejectCall_hidden.
Qed.

Lemma elapse_cases ms s :
  elapse ms s = advanced ms s
  ∨ ∃ c, incomingCallHidden (page s) = false
         ∧ elapse ms s = rejectCall c (set_incomingCallHidden true (advanced ms s)).
Proof.
  unfold elapse. fold (advanced ms s).
  destruct (foldl_autoReject_cases
              (List.filter (due (now (runtime s) + Z.max 0 ms)) (timers (runtime s)))
              (advanced ms s)) as [H|(c & _ & Hh & H)]; [by left|].
  right. by exists c.
Qed.

(** ** The session table in reachable states *)

Lemma sessions_wf_frame s s' :
  peerConnections s' = peerConnections s → pcHeap (runtime s') = pcHeap (runtime s) →
  sessions_wf s → sessions_wf s'.
Proof. intros Hp Hh H id pc. rewrite Hp, Hh. apply H. Qed.

(** Two ids never share a connection. *)
Lemma sessions_wf_inj s id id' pc :
  sessions_wf s → peerConnections s !! id = Some pc → peerConnections s !! id' = Some pc →
  id = id'.
Proof.
  intros H H1 H2.
  destruct (H _ _ H1) as (o & Ho & <- & _). destruct (H _ _ H2) as (o' & Ho' & <- & _).
  congruence.
Qed.

Lemma sessions_wf_onPc f pc s :
  (∀ o, pcRemote (f o) = pcRemote o ∧ pcClosed (f o) = pcClosed o) →
  sessions_wf s → sessions_wf (onPc f pc s).
Proof.
  intros Hf H id pc' Hpc'. destruct (H id pc' Hpc') as (o & Ho & Hr & Hc).
  unfold onPc. simpl. destruct (decide (pc' = pc)) as [->|Hne].
  - exists (f o). rewrite list_lookup_alter_eq, Ho. destruct (Hf o) as [-> ->]. done.
  - exists o. by rewrite list_lookup_alter_ne.
Qed.

Lemma sessions_wf_createPeerConnection id isInit s :
  sessions_wf s → sessions_wf (createPeerConnection id isInit s).2.
Proof.
  intros H. unfold createPeerConnection.
  destruct (peerConnections s !! id) as [pc|] eqn:Hid; simpl; [done|].
  set (s2 := set_pcHeap _ _).
  assert (sessions_wf s2) as H2.
  { intros id' pc'. subst s2. simpl. destruct (decide (id = id')) as [<-|Hne].
    - rewrite lookup_insert_eq. intros [= <-].
      eexists. rewrite lookup_app_r, Nat.sub_diag by done. by simpl.
    - rewrite lookup_insert_ne by done. intros Hpc'.
      destruct (H id' pc' Hpc') as (o & Ho & ? & ?). exists o.
      rewrite lookup_app_l by (by eapply lookup_lt_Some). done. }
  destruct isInit; [|done].
  eapply sessions_wf_frame;
    [| |apply (sessions_wf_onPc (setLocalDescription (localSdp offer))
                 (length (pcHeap (runtime s))) s2); [|exact H2]]; done.
Qed.

Lemma sessions_wf_on_existing_voice_users users s :
  sessions_wf s → sessions_wf (on_existing_voice_users users s).
Proof.
  revert s. induction users as [|u users IH]; intros s H; [done|].
  rewrite on_existing_voice_users_cons. by apply IH, sessions_wf_createPeerConnection.
Qed.

Lemma sessions_wf_dropPeer id s : sessions_wf s → sessions_wf (dropPeer id s).
Proof.
  intros H. unfold dropPeer.
  destruct (peerConnections s !! id) as [pc|] eqn:Hid; [|done].
  intros id' pc'. simpl. destruct (decide (id = id')) as [<-|Hne].
  - by rewrite lookup_delete_eq.
  - rewrite lookup_delete_ne by done. intros Hpc'.
    destruct (H id' pc' Hpc') as (o & Ho & ? & ?). exists o.
    rewrite list_lookup_alter_ne; [done|].
    intros ->. by apply Hne, (sessions_wf_inj s id id' pc').
Qed.

Lemma sessions_wf_leaveVoiceChannel force s :
  sessions_wf s → sessions_wf (leaveVoiceChannel force s).
Proof.
  intros H. unfold leaveVoiceChannel.
  destruct (inCall s); simpl; [|done]. destruct force; [|done].
  intros id pc. simpl. unfold emitIfConnected.
  destruct (socketConnected _); simpl; by rewrite lookup_empty.
Qed.

Lemma sessions_wf_on_offer from d s : sessions_wf s → sessions_wf (on_offer from d s).
Proof.
  intros H. unfold on_offer.
  set (s1 := match peerConnections s !! from with Some _ => s | None => _ end).
  assert (sessions_wf s1) as H1.
  { subst s1. destruct (peerConnections s !! from); [done|].
    by apply sessions_wf_createPeerConnection. }
  clearbody s1. destruct (peerConnections s1 !! from) as [pc|]; [|done].
  eapply sessions_wf_frame;
    [| |apply (sessions_wf_onPc (setLocalDescription (localSdp answer)) pc);
        [|apply (sessions_wf_onPc (setRemoteDescription d) pc); [|exact H1]]]; done.
Qed.

Lemma sessions_wf_elapse ms s : sessions_wf s → sessions_wf (elapse ms s).
Proof.
  intros H. destruct (elapse_cases ms s) as [->|(c & _ & ->)].
  - by eapply sessions_wf_frame; [| |exact H].
  - eapply sessions_wf_frame; [| |exact H];
      unfold rejectCall, emitIfConnected; by destruct (socketConnected _).
Qed.

Lemma sessions_wf_acquireCallMedia ty kinds s :
  peerConnections (acquireCallMedia ty kinds s) = peerConnections s
  ∧ pcHeap (runtime (acquireCallMedia ty kinds s)) = pcHeap (runtime s).
Proof.
  unfold acquireCallMedia. destruct (newStream _ _). by destruct ty.
Qed.

Lemma sessions_wf_initiateCall friend ty gum s :
  sessions_wf s → sessions_wf (initiateCall friend ty gum s).
Proof.
  intros H. destruct (sessions_wf_acquireCallMedia ty (match gum with Granted k => k | _ => [] end) s)
    as [Hp Hh].
  eapply sessions_wf_frame; [| |exact H];
    unfold initiateCall, emitIfConnected; destruct gum; simpl; try done;
    by destruct (socketConnected _).
Qed.

Lemma sessions_wf_acceptCall caller ty gum s :
  sessions_wf s → sessions_wf (acceptCall caller ty gum s).
Proof.
  intros H. unfold acceptCall. destruct gum as [kinds|]; [|done].
  destruct (sessions_wf_acquireCallMedia ty kinds s) as [Hp Hh].
  set (s5 := set_isAudioEnabled _ _).
  assert (sessions_wf s5) as H5.
  { eapply sessions_wf_frame; [| |exact H]; subst s5; unfold emitIfConnected; simpl;
      by destruct (socketConnected _). }
  clearbody s5. destruct (peerConnections s5 !! _); [done|].
  by apply sessions_wf_createPeerConnection.
Qed.

Lemma sessions_wf_joinVoiceChannel ch gum s :
  sessions_wf s → sessions_wf (joinVoiceChannel ch gum s).
Proof.
  intros H. unfold joinVoiceChannel. destruct (inCall s).
  - by destruct (callInterfaceHidden _).
  - destruct gum as [kinds|].
    + unfold initializeMedia. destruct (newStream _ _).
      eapply sessions_wf_frame; [| |exact H]; unfold emitIfConnected;
        repeat (simpl; case_match); done.
    + simpl. apply sessions_wf_leaveVoiceChannel. done.
Qed.

Lemma sessions_wf_setMicrophoneState en skip s :
  sessions_wf s → sessions_wf (setMicrophoneState en skip s).
Proof.
  intros H. eapply sessions_wf_frame; [| |exact H];
    unfold setMicrophoneState; repeat (simpl; case_match); done.
Qed.

Lemma sessions_wf_step s e : sessions_wf s → sessions_wf (step s e).
Proof.
  intros H. destruct e; simpl.
  - by apply sessions_wf_setMicrophoneState.
  - unfold setSpeakerState. destruct on; simpl; by apply sessions_wf_setMicrophoneState.
  - by apply sessions_wf_setMicrophoneState.
  - by apply sessions_wf_joinVoiceChannel.
  - by apply sessions_wf_leaveVoiceChannel.
  - by apply sessions_wf_initiateCall.
  - unfold clickAccept. destruct (acceptBtnOnclick _) as [[c ty]|]; [|done].
    by apply sessions_wf_acceptCall.
  - unfold clickReject, rejectCall, emitIfConnected.
    eapply sessions_wf_frame; [| |exact H]; repeat (simpl; case_match); done.
  - by apply sessions_wf_elapse.
  - by apply sessions_wf_createPeerConnection.
  - by apply sessions_wf_on_existing_voice_users.
  - by apply sessions_wf_dropPeer.
  - by apply sessions_wf_on_offer.
  - unfold on_answer. destruct (peerConnections s !! from); [|done].
    by apply sessions_wf_onPc.
  - unfold on_ice_candidate. destruct (peerConnections s !! from), candidate; try done.
    by apply sessions_wf_onPc.
  - unfold on_incoming_call. by destruct from.
  - unfold on_call_accepted. destruct (peerConnections s !! _); [done|].
    by apply sessions_wf_createPeerConnection.
  - eapply sessions_wf_frame; [| |exact H];
      unfold on_call_rejected; simpl; by destruct (localStream s).
  - unfold on_call_ended. case_bool_decide.
    + by apply sessions_wf_leaveVoiceChannel, sessions_wf_dropPeer.
    + by apply sessions_wf_dropPeer.
  - unfold onicecandidate. by destruct (pcHeap _ !! pc), candidate.
  - unfold oniceconnectionstatechange.
    destruct st; repeat apply sessions_wf_onPc; done.
  - unfold ontrack. repeat case_match; done.
  - done.
Qed.

Lemma sessions_wf_run s evs : sessions_wf s → sessions_wf (run s evs).
Proof.
  revert s. induction evs as [|e evs IH]; intros s H; [done|].
  rewrite run_cons. by apply IH, sessions_wf_step.
Qed.

(** In every reachable state each session of the table has an open
    connection, created for the id it is filed under, and two ids never
    share a connection. *)
Theorem reachable_sessions_open (cfg : Config) (s : State) :
  reachable cfg s →
  (∀ id pc, peerConnections s !! id = Some pc →
     ∃ o, pcHeap (runtime s) !! pc = Some o ∧ pcRemote o = id ∧ pcClosed o = false)
  ∧ (∀ id id' pc, peerConnections s !! id = Some pc → peerConnections s !! id' = Some pc →
       id = id').
Proof.
  intros [evs ->].
  assert (sessions_wf (run (initial cfg) evs)) as H.
  { apply sessions_wf_run. intros id pc. simpl. by rewrite lookup_empty. }
  split; [exact H|]. intros id id' pc. by apply sessions_wf_inj.
Qed.

Lemma reachable_sessions_open_witness :
  ∃ o, pcHeap (runtime (run idle [JoinVoice "voice" (Granted [audio; video]);
                                  ExistingVoiceUsers ["A"; "B"];
                                  UserLeftVoice "A"])) !! 1%nat = Some o
       ∧ pcRemote o = "B" ∧ pcClosed o = false.
Proof.
  apply (proj1 (reachable_sessions_open cfg0 _ (reachable_run cfg0 _)) "B" 1%nat).
  by vm_compute.
Defined.

(** ** The local stream in reachable states *)

Ltac same_media :=
  unfold same_media; repeat (simpl; case_match); simpl; done.


Lemma same_media_live s s' : same_media s s' → stream_live s → stream_live s'.
Proof.
  intros (Hin & Hls & Htr) H ms. unfold stream_live in H. rewrite Hin, Hls, Htr. apply H.
Qed.


Lemma forEachRef_keeps_live f refs (heap : list MediaStreamTrack) r t :
  (∀ t, f (f t) = f t) → (∀ t, readyLive (f t) = readyLive t) →
  heap !! r = Some t →
  ∃ t', forEachRef f refs heap !! r = Some t' ∧ readyLive t' = readyLive t.
Proof.
  intros Hidem Hlive Hr. rewrite forEachRef_lookup by done.
  destruct (decide (r ∈ refs)); rewrite Hr; simpl; eauto.
Qed.

(** Writing [enabled] flags keeps a live stream live. *)
Lemma stream_live_set_enabled v refs s s' :
  inCall s' = inCall s → localStream s' = localStream s →
  tracks (runtime s') = forEachRef (set_enabled v) refs (tracks (runtime s)) →
  stream_live s → stream_live s'.
Proof.
  intros Hin Hls Htr H ms Hms. rewrite Hls in Hms. destruct (H ms Hms) as [Hc Hall].
  split; [congruence|]. intros r Hr. destruct (Hall r Hr) as (t & Ht & Hlive).
  rewrite Htr.
  destruct (forEachRef_keeps_live (set_enabled v) refs (tracks (runtime s)) r t)
    as (t' & Ht' & Hl'); try done.
  exists t'. split; [done|congruence].
Qed.

(** A stream that [getUserMedia] has just resolved is live. *)
Lemma stream_live_fresh kinds heap s' :
  inCall s' = true → localStream s' = Some (newStream kinds heap).1 →
  tracks (runtime s') = (newStream kinds heap).2 →
  stream_live s'.
Proof.
  intros Hin Hls Htr ms Hms. rewrite Hls in Hms. injection Hms as <-.
  split; [done|]. intros r Hr.
  destruct (newStream_lookup kinds heap r Hr) as [k Hk].
  exists (freshTrack k). by rewrite Htr.
Qed.





Lemma stream_live_acquireCallMedia ty kinds s s' :
  inCall s' = true →
  localStream s' = localStream (acquireCallMedia ty kinds s) →
  tracks (runtime s') = tracks (runtime (acquireCallMedia ty kinds s)) →
  stream_live s'.
Proof.
  unfold acquireCallMedia.
  pose proof (stream_live_fresh kinds (tracks (runtime s))) as Hfresh.
  destruct (newStream kinds (tracks (runtime s))) as [ms heap] eqn:Hnew.
  simpl in Hfresh. intros Hin Hls Htr.
  set (s1 := set_inCall true (set_localStream (Some ms) (set_tracks heap s))).
  assert (stream_live s1) as H1 by (by apply Hfresh).
  destruct ty; simpl in *.
  - by eapply stream_live_set_enabled; [| | |exact H1].
  - by eapply same_media_live; [|exact H1].
Qed.



Lemma same_media_dropPeer id s : same_media s (dropPeer id s).
Proof. unfold dropPeer, onPc. same_media. Qed.







(** ** A member leaves *)

Lemma dropPeer_twice id s : dropPeer id (dropPeer id s) = dropPeer id s.
Proof.
  unfold dropPeer at 1.
  assert (peerConnections (dropPeer id s) !! id = None) as ->.
  { unfold dropPeer. destruct (peerConnections s !! id) eqn:Hid; simpl; [|done].
    apply lookup_delete_eq. }
  unfold dropPeer. destruct (peerConnections s !! id); simpl;
    by rewrite alter_alter_eq.
Qed.

(** [user-left-voice]: the session of that member is removed from the
    table and its connection closed; every other session keeps its entry
    and its connection object; nothing is emitted; a second
    [user-left-voice] for the same id changes nothing. *)
Theorem user_left_closes_one_session (s : State) (id : string) :
  sessions_wf s →
  peerConnections (on_user_left_voice id s) !! id = None
  ∧ (∀ pc, peerConnections s !! id = Some pc →
       ∃ o', pcHeap (runtime (on_user_left_voice id s)) !! pc = Some o'
             ∧ pcClosed o' = true ∧ pcRemote o' = id)
  ∧ (∀ id' pc', id' ≠ id → peerConnections s !! id' = Some pc' →
       peerConnections (on_user_left_voice id s) !! id' = Some pc'
       ∧ pcHeap (runtime (on_user_left_voice id s)) !! pc' = pcHeap (runtime s) !! pc')
  ∧ emitted (runtime (on_user_left_voice id s)) = emitted (runtime s)
  ∧ on_user_left_voice id (on_user_left_voice id s) = on_user_left_voice id s.
Proof.
  intros Hwf. unfold on_user_left_voice.
  split; [|split; [|split; [|split]]].
  - unfold dropPeer. destruct (peerConnections s !! id) eqn:Hid; simpl; [|done].
    apply lookup_delete_eq.
  - intros pc Hpc. destruct (Hwf id pc Hpc) as (o & Ho & Hr & _).
    exists (close o). split; [|done].
    unfold dropPeer. rewrite Hpc. simpl. by rewrite list_lookup_alter_eq, Ho.
  - intros id' pc' Hne Hpc'. unfold dropPeer.
    destruct (peerConnections s !! id) as [pc|] eqn:Hid; simpl; [|done].
    rewrite lookup_delete_ne by done. split; [done|].
    apply list_lookup_alter_ne. intros Heq. subst pc'.
    by apply Hne, (sessions_wf_inj s id' id pc).
  - unfold dropPeer. by destruct (peerConnections s !! id).
  - apply dropPeer_twice.
Qed.

Lemma sessions_wf_reachable cfg evs : sessions_wf (run (initial cfg) evs).
Proof. apply sessions_wf_run. intros id pc. simpl. by rewrite lookup_empty. Qed.

Lemma user_left_closes_one_session_witness :
  peerConnections (on_user_left_voice "A" with_two) !! "A" = None
  ∧ (∃ o', pcHeap (runtime (on_user_left_voice "A" with_two)) !! 0%nat = Some o'
           ∧ pcClosed o' = true ∧ pcRemote o' = "A")
  ∧ peerConnections (on_user_left_voice "A" with_two) !! "B" = Some 1%nat.
Proof.
  destruct (user_left_closes_one_session with_two "A"
              (sessions_wf_reachable cfg0
                 [JoinVoice "voice" (Granted [audio; video]); ExistingVoiceUsers ["A"; "B"]]))
    as (Hgone & Hclosed & Hother & _).
  split; [exact Hgone|]. split.
  - apply Hclosed. by vm_compute.
  - apply (Hother "B" 1%nat); [discriminate|by vm_compute].
Defined.

(** ** An offer arrives *)

Lemma session_onPc f pc s id o :
  sessions_wf s → session s id o → peerConnections s !! id ≠ Some pc →
  session (onPc f pc s) id o.
Proof.
  intros Hwf (pc' & Hpc' & Ho) Hne. exists pc'. split; [done|].
  unfold onPc. simpl. rewrite list_lookup_alter_ne; [done|]. congruence.
Qed.

(** [offer]: afterwards the sender has a session whose remote description
    is the offer and whose local description is the answer, and the one
    message emitted is that answer, addressed to the sender.  A session
    created for the purpose is a responder.  The sessions of other ids
    are unchanged. *)
Theorem offer_is_answered (s : State) (from : string) (d : SessionDescription) :
  sessions_wf s →
  (∃ o, session (on_offer from d s) from o
        ∧ remoteDescription o = Some d
        ∧ localDescription o = Some (localSdp answer)
        ∧ pcClosed o = false
        ∧ (peerConnections s !! from = None → pcInitiator o = false))
  ∧ emitted (runtime (on_offer from d s))
      = emitted (runtime s) ++ [Answer from (localSdp answer)]
  ∧ (∀ id o, id ≠ from → session s id o → session (on_offer from d s) id o).
Proof.
  intros Hwf. unfold on_offer.
  set (s1 := match peerConnections s !! from with Some _ => s | None => _ end).
  assert (sessions_wf s1) as Hwf1.
  { subst s1. destruct (peerConnections s !! from); [done|].
    by apply sessions_wf_createPeerConnection. }
  assert (emitted (runtime s1) = emitted (runtime s)) as Hem1.
  { subst s1. destruct (peerConnections s !! from); [done|].
    apply createPeerConnection_responder_emitted. }
  assert (∀ id o, session s id o → session s1 id o) as Hkeep.
  { subst s1. intros id o Hs. destruct (peerConnections s !! from); [done|].
    by apply session_createPeerConnection. }
  assert (∃ pc o1, peerConnections s1 !! from = Some pc ∧ pcHeap (runtime s1) !! pc = Some o1
                   ∧ pcClosed o1 = false
                   ∧ (peerConnections s !! from = None → pcInitiator o1 = false))
    as (pc & o1 & Hpc & Ho1 & Hc1 & Hi1).
  { subst s1. destruct (peerConnections s !! from) as [pc|] eqn:Hfrom.
    - destruct (Hwf from pc Hfrom) as (o & Ho & _ & Hc). by exists pc, o.
    - destruct (session_created s from false Hfrom) as (o & (pc & Hpc & Ho) & _ & Hi & Hc & _).
      by exists pc, o. }
  clearbody s1. rewrite Hpc. split; [|split].
  - exists (setLocalDescription (localSdp answer) (setRemoteDescription d o1)).
    split; [|done]. exists pc. split; [done|]. simpl.
    by rewrite !list_lookup_alter_eq, Ho1.
  - simpl. by rewrite Hem1.
  - intros id o Hne Hs. apply Hkeep in Hs. destruct Hs as (pc' & Hpc' & Ho).
    exists pc'. split; [done|]. simpl.
    assert (pc' ≠ pc) as Hpcne
      by (intros ->; by apply Hne, (sessions_wf_inj s1 id from pc)).
    by rewrite !list_lookup_alter_ne.
Qed.

Lemma offer_is_answered_witness :
  emitted (runtime (on_offer "A" remoteOffer with_two))
    = emitted (runtime with_two) ++ [Answer "A" (localSdp answer)].
Proof.
  exact (proj1 (proj2 (offer_is_answered with_two "A" remoteOffer
    (sessions_wf_reachable cfg0
       [JoinVoice "voice" (Granted [audio; video]); ExistingVoiceUsers ["A"; "B"]])))).
Defined.

(** ** Messages that arrive after a forced leave *)

Lemma set_remoteParticipants_id s : set_remoteParticipants (remoteParticipants (page s)) s = s.
Proof. destruct s as [? ? ? ? ? ? ? [] ?]. reflexivity. Qed.

(** For an id that has neither a session nor a video, [dropPeer] finds
    nothing to do. *)
Lemma dropPeer_absent id s :
  peerConnections s !! id = None → remoteParticipants (page s) !! id = None →
  dropPeer id s = s.
Proof.
  intros Hpc Hrp. unfold dropPeer. rewrite Hpc.
  rewrite alter_id by (intros x; by rewrite Hrp).
  apply set_remoteParticipants_id.
Qed.

(** After a forced leave from a call, an answer, a candidate or a
    [user-left-voice] from any id finds no session and leaves the state
    exactly as it is. *)
Theorem late_messages_are_dropped (s : State) (id : string) (a : SessionDescription)
    (c : option string) :
  inCall s = true →
  on_answer id a (leaveVoiceChannel true s) = leaveVoiceChannel true s
  ∧ on_ice_candidate id c (leaveVoiceChannel true s) = leaveVoiceChannel true s
  ∧ on_user_left_voice id (leaveVoiceChannel true s) = leaveVoiceChannel true s.
Proof.
  intros Hin.
  assert (peerConnections (leaveVoiceChannel true s) = ∅) as Hpcs.
  { unfold leaveVoiceChannel, emitIfConnected. rewrite Hin. simpl.
    by repeat case_match. }
  assert (remoteParticipants (page (leaveVoiceChannel true s)) = ∅) as Hrp.
  { unfold leaveVoiceChannel, emitIfConnected. rewrite Hin. simpl.
    by repeat case_match. }
  split; [|split].
  - unfold on_answer. by rewrite Hpcs, lookup_empty.
  - unfold on_ice_candidate. by rewrite Hpcs, lookup_empty.
  - apply dropPeer_absent; [by rewrite Hpcs, lookup_empty|by rewrite Hrp, lookup_empty].
Qed.

Lemma late_messages_are_dropped_witness :
  on_answer "A" remoteOffer (leaveVoiceChannel true with_two) = leaveVoiceChannel true with_two.
Proof.
  assert (inCall with_two = true) as Hin by (vm_compute; reflexivity).
  exact (proj1 (late_messages_are_dropped with_two "A" remoteOffer None Hin)).
Defined.

(** An offer, on the contrary, is taken at any time.  On a page that is
    in no call and holds no stream it opens a responder session that
    sends no track, and answers; as [leaveVoiceChannel] returns at once
    when [inCall] is unset, a forced leave does not remove that session. *)
Theorem offer_outside_a_call (s : State) (from : string) (d : SessionDescription) :
  inCall s = false → localStream s = None → peerConnections s !! from = None →
  (∃ o, session (on_offer from d s) from o
        ∧ pcInitiator o = false ∧ senders o = [] ∧ pcClosed o = false
        ∧ remoteDescription o = Some d)
  ∧ inCall (on_offer from d s) = false
  ∧ emitted (runtime (on_offer from d s))
      = emitted (runtime s) ++ [Answer from (localSdp answer)]
  ∧ leaveVoiceChannel true (on_offer from d s) = on_offer from d s.
Proof.
  intros Hin Hls Hfrom.
  assert (on_offer from d s
          = emit (Answer from (localSdp answer))
              (onPc (setLocalDescription (localSdp answer)) (length (pcHeap (runtime s)))
                 (onPc (setRemoteDescription d) (length (pcHeap (runtime s)))
                    (createPeerConnection from false s).2))) as ->.
  { unfold on_offer. rewrite Hfrom.
    rewrite (createPeerConnection_lookup from false s).
    unfold createPeerConnection. by rewrite Hfrom. }
  unfold createPeerConnection. rewrite Hfrom, Hls. simpl.
  split; [|split; [done|split; [done|]]].
  - eexists. split.
    + exists (length (pcHeap (runtime s))). split; [apply lookup_insert_eq|].
      simpl. rewrite !list_lookup_alter_eq, lookup_app_r, Nat.sub_diag by done.
      reflexivity.
    + done.
  - unfold leaveVoiceChannel. simpl. by rewrite Hin.
Qed.

Lemma offer_outside_a_call_witness :
  leaveVoiceChannel true (on_offer "A" remoteOffer idle) = on_offer "A" remoteOffer idle.
Proof.
  apply (offer_outside_a_call idle "A" remoteOffer); reflexivity.
Defined.

(** ** The other party hangs up *)

Lemma dropPeer_table id s :
  peerConnections (dropPeer id s) = delete id (peerConnections s).
Proof.
  unfold dropPeer. destruct (peerConnections s !! id) eqn:Hid; simpl; [done|].
  by rewrite delete_id.
Qed.

Lemma leaveVoiceChannel_forced s :
  inCall s = true →
  inCall (leaveVoiceChannel true s) = false
  ∧ localStream (leaveVoiceChannel true s) = None
  ∧ screenStream (leaveVoiceChannel true s) = None
  ∧ peerConnections (leaveVoiceChannel true s) = ∅
  ∧ device (leaveVoiceChannel true s) = defaultDevice
  ∧ tracks (runtime (leaveVoiceChannel true s))
      = stopStream (screenStream s) (stopStream (localStream s) (tracks (runtime s)))
  ∧ pcHeap (runtime (leaveVoiceChannel true s))
      = forEachRef close (values (peerConnections s)) (pcHeap (runtime s)).
Proof.
  intros Hin. unfold leaveVoiceChannel, emitIfConnected. rewrite Hin. simpl.
  by destruct (socketConnected (runtime s)).
Qed.

(** [call-ended] while in a call.  When the sender's session is the only
    one, or there is none at all, the whole call is torn down: the
    sender's connection is closed, every track of the local stream is
    stopped, the stream is dropped, [inCall] is cleared and the device
    flags return to their defaults.  When a session with somebody else
    remains, only the sender's session goes and the call stays up. *)
Theorem call_ended_by_last_peer (s : State) (from : string) :
  inCall s = true →
  ((∀ id, id ≠ from → peerConnections s !! id = None) →
     inCall (on_call_ended from s) = false
     ∧ localStream (on_call_ended from s) = None
     ∧ peerConnections (on_call_ended from s) = ∅
     ∧ device (on_call_ended from s) = defaultDevice
     ∧ (∀ pc o, peerConnections s !! from = Some pc → pcHeap (runtime s) !! pc = Some o →
          ∃ o', pcHeap (runtime (on_call_ended from s)) !! pc = Some o' ∧ pcClosed o' = true)
     ∧ (∀ ms r t, localStream s = Some ms → r ∈ streamTracks ms →
          tracks (runtime s) !! r = Some t →
          ∃ t', tracks (runtime (on_call_ended from s)) !! r = Some t'
                ∧ readyLive t' = false))
  ∧ ((∃ id pc, id ≠ from ∧ peerConnections s !! id = Some pc) →
     inCall (on_call_ended from s) = true
     ∧ localStream (on_call_ended from s) = localStream s
     ∧ tracks (runtime (on_call_ended from s)) = tracks (runtime s)
     ∧ device (on_call_ended from s) = device s
     ∧ peerConnections (on_call_ended from s) = delete from (peerConnections s)).
Proof.
  intros Hin. unfold on_call_ended. rewrite dropPeer_table.
  destruct (same_media_dropPeer from s) as (Hin' & Hls' & Htr').
  split.
  - intros Honly.
    assert (delete from (peerConnections s) = ∅) as Hempty.
    { apply map_eq. intros k. rewrite lookup_empty.
      destruct (decide (k = from)) as [->|Hne]; [apply lookup_delete_eq|].
      rewrite lookup_delete_ne by done. by apply Honly. }
    rewrite Hempty, bool_decide_eq_true_2 by done.
    destruct (leaveVoiceChannel_forced (dropPeer from s)) as (? & ? & ? & ? & ? & Htr & Hheap);
      [congruence|].
    repeat split; try done.
    + intros pc o Hpc Ho. exists (close o). split; [|done].
      rewrite Hheap, dropPeer_table, Hempty.
      unfold values. rewrite map_to_list_empty. simpl.
      unfold dropPeer. rewrite Hpc. simpl. by rewrite list_lookup_alter_eq, Ho.
    + intros ms r t Hms Hr Ht. exists (stop t). split; [|done].
      by rewrite Htr, Hls', Htr', Hms, stopStream_stopped, Ht.
  - intros (id & pc & Hne & Hpc).
    rewrite bool_decide_eq_false_2.
    + pose proof (same_audio_dropPeer from s) as (_ & _ & Hdev).
      split; [congruence|]. repeat split; try done. apply dropPeer_table.
    + apply map_size_non_empty_iff. intros Hempty.
      assert (delete from (peerConnections s) !! id = Some pc) as Hl
        by (by rewrite lookup_delete_ne).
      by rewrite Hempty, lookup_empty in Hl.
Qed.

Lemma call_ended_by_last_peer_witness :
  inCall (on_call_ended "A" calling) = false
  ∧ peerConnections (on_call_ended "A" calling) = ∅
  ∧ inCall (on_call_ended "A" (on_user_joined_voice "B" calling)) = true.
Proof.
  destruct (call_ended_by_last_peer calling "A" eq_refl) as [Hlast _].
  destruct (call_ended_by_last_peer (on_user_joined_voice "B" calling) "A" eq_refl)
    as [_ Hmore].
  destruct Hlast as (H1 & _ & H3 & _).
  { intros id Hne.
    assert (peerConnections calling = {["A" := 0%nat]}) as -> by (by vm_compute).
    by apply lookup_singleton_ne. }
  destruct Hmore as (H4 & _); [exists "B", 1%nat; split; [discriminate|by vm_compute]|].
  split; [exact H1|]. split; [exact H3|exact H4].
Defined.

(** ** Direct calls *)

(** The flags of the tracks of one kind, after all of them have been
    written. *)
Lemma flags_written k v heap ms :
  omap (λ r, enabled <$> forEachRef (set_enabled v) (getTracksOfKind k heap ms) heap !! r)
       (getTracksOfKind k (forEachRef (set_enabled v) (getTracksOfKind k heap ms) heap) ms)
    = replicate (length (getTracksOfKind k heap ms)) v.
Proof.
  rewrite getTracksOfKind_forEachRef by done.
  apply omap_const. intros r Hr.
  rewrite forEachRef_lookup_in by done.
  apply elem_of_getTracksOfKind in Hr as [_ Hk].
  apply hasKind_lookup in Hk as (t & -> & _). done.
Qed.

Lemma newStream_enabled k kinds heap :
  omap (λ r, enabled <$> (newStream kinds heap).2 !! r)
       (getTracksOfKind k (newStream kinds heap).2 (newStream kinds heap).1)
    = replicate (length (getTracksOfKind k (newStream kinds heap).2 (newStream kinds heap).1))
        true.
Proof.
  apply omap_const. intros r Hr.
  apply elem_of_getTracksOfKind in Hr as [Hr _].
  destruct (newStream_lookup kinds heap r Hr) as [k' ->]. done.
Qed.

(** The tracks of one kind of a fresh stream are as many as the granted
    kinds say. *)
Lemma newStream_count k kinds heap :
  length (getTracksOfKind k (newStream kinds heap).2 (newStream kinds heap).1)
    = length (List.filter (λ x, bool_decide (x = k)) kinds).
Proof.
  unfold getTracksOfKind. simpl. revert heap.
  induction kinds as [|a kinds IH]; intros heap; [done|].
  simpl. change (list_fmap _ _ freshTrack kinds) with (freshTrack <$> kinds).
  rewrite cons_middle, app_assoc.
  specialize (IH (heap ++ [freshTrack a])).
  rewrite length_app, Nat.add_1_r in IH. simpl in IH.
  assert (hasKind k ((heap ++ [freshTrack a]) ++ (freshTrack <$> kinds)) (length heap)
          = bool_decide (a = k)) as ->.
  { unfold hasKind. rewrite lookup_app_l by (rewrite length_app; simpl; lia).
    rewrite lookup_app_r, Nat.sub_diag by done. done. }
  destruct (bool_decide (a = k)); simpl; by rewrite IH.
Qed.

(** The camera tracks of a call: all disabled for an audio call, all
    enabled for a video call. *)
Lemma acquireCallMedia_video ty kinds s :
  localVideoEnabled (acquireCallMedia ty kinds s)
    = replicate (length (List.filter (λ x, bool_decide (x = video)) kinds)) (isVideoCall ty).
Proof.
  unfold acquireCallMedia, localVideoEnabled, getVideoTracks.
  pose proof (newStream_enabled video kinds (tracks (runtime s))) as Hfresh.
  pose proof (newStream_count video kinds (tracks (runtime s))) as Hcount.
  destruct (newStream kinds (tracks (runtime s))) as [ms heap] eqn:Hnew.
  simpl in Hfresh, Hcount. destruct ty; simpl.
  - by rewrite flags_written, Hcount.
  - by rewrite Hfresh, Hcount.
Qed.

Lemma acquireCallMedia_stream ty kinds s :
  localStream (acquireCallMedia ty kinds s) = Some (newStream kinds (tracks (runtime s))).1
  ∧ ∀ r, r ∈ streamTracks (newStream kinds (tracks (runtime s))).1 →
      ∃ t, tracks (runtime (acquireCallMedia ty kinds s)) !! r = Some t ∧ readyLive t = true.
Proof.
  assert (stream_live (set_inCall true (acquireCallMedia ty kinds s))) as H
    by (by apply (stream_live_acquireCallMedia ty kinds s)).
  assert (localStream (acquireCallMedia ty kinds s)
          = Some (newStream kinds (tracks (runtime s))).1) as Hls.
  { unfold acquireCallMedia. destruct (newStream _ _). by destruct ty. }
  split; [done|]. intros r Hr. destruct (H _ Hls) as [_ Hall]. by apply Hall.
Qed.

(** [initiateCall] with the media granted.  The page is in a call with the
    call interface shown, the call details name the friend with this side
    as initiator, one [initiate-call] is emitted when the socket is
    connected and none otherwise, and no peer session is opened yet.  The
    video tracks of the fresh stream and the camera flag are on for a
    video call and off for an audio call. *)
Theorem initiateCall_granted (friend : Z) (ty : CallType) (kinds : list TrackKind) (s : State) :
  inCall (initiateCall friend ty (Granted kinds) s) = true
  ∧ callInterfaceHidden (page (initiateCall friend ty (Granted kinds) s)) = false
  ∧ currentCallDetails (initiateCall friend ty (Granted kinds) s)
      = Some {| friendId := Some friend; peerId := None; callType := ty;
                isInitiator := true; originalType := ty |}
  ∧ emitted (runtime (initiateCall friend ty (Granted kinds) s))
      = emitted (runtime s)
        ++ (if socketConnected (runtime s)
            then [InitiateCall friend ty (currentUser (config s))] else [])
  ∧ peerConnections (initiateCall friend ty (Granted kinds) s) = peerConnections s
  ∧ pcHeap (runtime (initiateCall friend ty (Granted kinds) s)) = pcHeap (runtime s)
  ∧ localStream (initiateCall friend ty (Granted kinds) s)
      = Some (newStream kinds (tracks (runtime s))).1
  ∧ localVideoEnabled (initiateCall friend ty (Granted kinds) s)
      = replicate (length (List.filter (λ x, bool_decide (x = video)) kinds)) (isVideoCall ty)
  ∧ isVideoEnabled (device (initiateCall friend ty (Granted kinds) s)) = isVideoCall ty.
Proof.
  pose proof (acquireCallMedia_video ty kinds s) as Hvideo.
  pose proof (acquireCallMedia_stream ty kinds s) as [Hls _].
  unfold initiateCall, emitIfConnected, localVideoEnabled in *.
  unfold acquireCallMedia in *.
  destruct (newStream kinds (tracks (runtime s))) as [ms heap].
  destruct (socketConnected (runtime s)) eqn:Hsock, ty; simpl in *;
    rewrite ?Hsock; simpl; rewrite ?app_nil_r; done.
Qed.

(** What [initiateCall] leaves behind, in the terms the composition below
    needs. *)
Lemma initiateCall_fields friend ty kinds s :
  currentCallDetails (initiateCall friend ty (Granted kinds) s)
    = Some {| friendId := Some friend; peerId := None; callType := ty;
              isInitiator := true; originalType := ty |}
  ∧ peerConnections (initiateCall friend ty (Granted kinds) s) = peerConnections s
  ∧ localStream (initiateCall friend ty (Granted kinds) s)
      = Some (newStream kinds (tracks (runtime s))).1
  ∧ isVideoEnabled (device (initiateCall friend ty (Granted kinds) s)) = isVideoCall ty
  ∧ tracks (runtime (initiateCall friend ty (Granted kinds) s))
      = tracks (runtime (acquireCallMedia ty kinds s))
  ∧ alerts (page (initiateCall friend ty (Granted kinds) s)) = alerts (page s).
Proof.
  pose proof (acquireCallMedia_stream ty kinds s) as [Hls _].
  unfold initiateCall, emitIfConnected in *. unfold acquireCallMedia in *.
  destruct (newStream kinds (tracks (runtime s))) as [ms heap].
  destruct (socketConnected _), ty; simpl in *; done.
Qed.

(** A call that is started and then declined: the page is out of the
    call again, every track the call had acquired is stopped and the
    stream dropped, no session has been opened, and the user is told.
    The camera flag keeps the value the call gave it and the call details
    stay. *)
Theorem declined_call_releases_media (friend : Z) (ty : CallType) (kinds : list TrackKind)
    (s : State) :
  inCall (on_call_rejected (initiateCall friend ty (Granted kinds) s)) = false
  ∧ localStream (on_call_rejected (initiateCall friend ty (Granted kinds) s)) = None
  ∧ (∀ r, r ∈ streamTracks (newStream kinds (tracks (runtime s))).1 →
       ∃ t, tracks (runtime (on_call_rejected (initiateCall friend ty (Granted kinds) s))) !! r
              = Some t
            ∧ readyLive t = false)
  ∧ peerConnections (on_call_rejected (initiateCall friend ty (Granted kinds) s))
      = peerConnections s
  ∧ callInterfaceHidden (page (on_call_rejected (initiateCall friend ty (Granted kinds) s)))
      = true
  ∧ alerts (page (on_call_rejected (initiateCall friend ty (Granted kinds) s)))
      = alerts (page s) ++ ["Call was declined"]
  ∧ isVideoEnabled (device (on_call_rejected (initiateCall friend ty (Granted kinds) s)))
      = isVideoCall ty
  ∧ is_Some (currentCallDetails (on_call_rejected (initiateCall friend ty (Granted kinds) s))).
Proof.
  pose proof (acquireCallMedia_stream ty kinds s) as [_ Hlive].
  destruct (initiateCall_fields friend ty kinds s) as (Hcd & Hpc & Hls & Hve & Htr & Hal).
  set (s1 := initiateCall friend ty (Granted kinds) s) in *. clearbody s1.
  unfold on_call_rejected. simpl. rewrite Hls. simpl.
  split; [done|]. split; [done|]. split; [|split; [done|split; [done|split; [|split]]]].
  - intros r Hr. destruct (Hlive r Hr) as (t & Ht & _).
    exists (stop t). split; [|done].
    rewrite forEachRef_lookup_in by (done || apply stop_idem).
    by rewrite Htr, Ht.
  - by rewrite Hal.
  - done.
  - by rewrite Hcd.
Qed.

(** ** The timeouts of one advance of the clock *)

(** However many timeouts come due in one advance of the clock, at most
    one [reject-call] goes out: the first timeout that finds the panel
    visible hides it, and the later ones then do nothing.  The message
    goes to a caller whose timeout was pending, and only when the panel
    was visible and the socket connected. *)
Theorem elapse_rejects_at_most_once (ms : Z) (s : State) :
  emitted (runtime (elapse ms s)) = emitted (runtime s)
  ∨ (∃ c, c ∈ (timers (runtime s)).*2
          ∧ incomingCallHidden (page s) = false
          ∧ socketConnected (runtime s) = true
          ∧ emitted (runtime (elapse ms s))
              = emitted (runtime s) ++ [RejectCall (callerSocketId c)]
          ∧ incomingCallHidden (page (elapse ms s)) = true).
Proof.
  unfold elapse. fold (advanced ms s).
  destruct (foldl_autoReject_cases
              (List.filter (due (now (runtime s) + Z.max 0 ms)) (timers (runtime s)))
              (advanced ms s)) as [->|(c & Hc & Hh & ->)].
  - by left.
  - simpl in Hh. unfold rejectCall, emitIfConnected. simpl.
    destruct (socketConnected (runtime s)) eqn:Hsock.
    + right. exists c. repeat split; try done.
      apply list_elem_of_fmap in Hc as (p & -> & Hp).
      apply list_elem_of_fmap. exists p. split; [done|].
      apply list_elem_of_In, List.filter_In in Hp as [Hp _]. by apply list_elem_of_In.
    + by left.
Qed.

(** ** The microphone while deafened *)

Lemma audioCount_frame s s' :
  localStream s' = localStream s → tracks (runtime s') = tracks (runtime s) →
  audioCount s' = audioCount s.
Proof. intros Hls Htr. unfold audioCount. by rewrite Hls, Htr. Qed.

Lemma setSpeakerState_false_audio s :
  isDeafened (device (setSpeakerState false s)) = true
  ∧ localAudioEnabled (setSpeakerState false s) = replicate (audioCount s) false
  ∧ audioCount (setSpeakerState false s) = audioCount s.
Proof.
  unfold setSpeakerState. simpl.
  rewrite setMicrophoneState_device, setMicrophoneState_audio, setMicrophoneState_audioCount.
  done.
Qed.

Lemma mic_event_while_deafened s e :
  isMicEvent e = true → isDeafened (device s) = true →
  isDeafened (device (step s e)) = true
  ∧ localAudioEnabled (step s e) = replicate (audioCount s) false
  ∧ audioCount (step s e) = audioCount s.
Proof.
  intros He Hdeaf. destruct e; try discriminate He; simpl; unfold toggleAudio;
    rewrite setMicrophoneState_device, setMicrophoneState_audio,
      setMicrophoneState_audioCount, Hdeaf, andb_false_r; done.
Qed.

(** Once the user has deafened, no sequence of microphone settings and
    toggles enables an audio track: every audio track of the local stream
    stays disabled.  Undeafening afterwards sets every audio track to the
    preference as the last of these settings left it. *)
Theorem deafened_mic_stays_off (s : State) (evs : list Event) :
  forallb isMicEvent evs = true →
  isDeafened (device (run (setSpeakerState false s) evs)) = true
  ∧ localAudioEnabled (run (setSpeakerState false s) evs) = replicate (audioCount s) false
  ∧ localAudioEnabled (setSpeakerState true (run (setSpeakerState false s) evs))
      = replicate (audioCount s)
          (preferredMicEnabled (device (run (setSpeakerState false s) evs))).
Proof.
  intros Hevs.
  destruct (setSpeakerState_false_audio s) as (Hd & Ha & Hc).
  revert Hd Ha Hc. generalize (setSpeakerState false s) as s0.
  induction evs as [|e evs IH]; intros s0 Hd Ha Hc.
  - simpl. split; [done|]. split; [done|].
    unfold setSpeakerState. simpl.
    rewrite setMicrophoneState_audio. simpl. rewrite andb_true_r.
    f_equal. rewrite <- Hc. by apply audioCount_frame.
  - simpl in Hevs. apply andb_true_iff in Hevs as [He Hevs].
    rewrite run_cons.
    destruct (mic_event_while_deafened s0 e He Hd) as (Hd' & Ha' & Hc').
    apply IH; [done|done|congruence|congruence].
Qed.

Lemma deafened_mic_stays_off_witness :
  localAudioEnabled (run (setSpeakerState false joined) [ToggleAudio; SetMicrophone true])
    = [false]
  ∧ localAudioEnabled
      (setSpeakerState true
         (run (setSpeakerState false joined) [ToggleAudio; SetMicrophone true]))
    = [true].
Proof.
  destruct (deafened_mic_stays_off joined [ToggleAudio; SetMicrophone true] eq_refl)
    as (_ & Hoff & Hon).
  split; [exact Hoff|]. rewrite Hon. by vm_compute.
Defined.

(** ** Text channels *)

(** The two channel mappings are inverse to each other on the ids 1 and 2
    and on the names [general] and [random] only: every other id is taken
    for channel [random] and every other name for channel 2. *)
Theorem channel_id_round_trip (id : Z) (name : string) :
  (getChannelIdByName (getChannelNameById id) = id ↔ id = 1%Z ∨ id = 2%Z)
  ∧ (getChannelNameById (getChannelIdByName name) = name
     ↔ name = "general" ∨ name = "random")
  ∧ (id ≠ 1%Z → getChannelNameById id = "random")
  ∧ (name ≠ "general" → getChannelIdByName name = 2%Z).
Proof.
  unfold getChannelIdByName, getChannelNameById.
  repeat split.
  - repeat case_decide; intros; simplify_eq; auto.
  - intros [->| ->]; by repeat case_decide.
  - repeat case_decide; intros; simplify_eq; auto.
  - intros [->| ->]; by repeat case_decide.
  - intros. by case_decide.
  - intros. by case_decide.
Qed.

Lemma channel_id_round_trip_witness :
  getChannelIdByName (getChannelNameById 2) = 2%Z
  ∧ getChannelNameById 7 = "random"
  ∧ getChannelIdByName "offtopic" = 2%Z.
Proof.
  destruct (channel_id_round_trip 2 "offtopic") as (Hid & _ & _ & Hname).
  destruct (channel_id_round_trip 7 "general") as (_ & _ & Hseven & _).
  split; [apply Hid; by right|]. split; [by apply Hseven|by apply Hname].
Defined.

(** [new-message]: the message is appended to the list of the channel its
    id maps to, which is created when missing, and to no other list; an id
    other than 1 files it under [random].  It is shown when that channel
    is the open one and the server view is up. *)
Theorem new_message_is_filed (current : string) (view : View) (channelId : Z) (m : Message)
    (c : Chat) :
  channels (on_new_message current view channelId m c) !! getChannelNameById channelId
    = Some (default [] (channels c !! getChannelNameById channelId) ++ [m])
  ∧ (∀ other, other ≠ getChannelNameById channelId →
       channels (on_new_message current view channelId m c) !! other = channels c !! other)
  ∧ (channelId ≠ 1%Z →
       channels (on_new_message current view channelId m c) !! "random"
         = Some (default [] (channels c !! "random") ++ [m]))
  ∧ (getChannelNameById channelId = current → view = serverView →
       messagesContainer (on_new_message current view channelId m c)
         = messagesContainer c ++ [m])
  ∧ (getChannelNameById channelId ≠ current ∨ view ≠ serverView →
       messagesContainer (on_new_message current view channelId m c) = messagesContainer c).
Proof.
  assert (channels (on_new_message current view channelId m c) !! getChannelNameById channelId
          = Some (default [] (channels c !! getChannelNameById channelId) ++ [m])) as Hfiled.
  { unfold on_new_message. simpl. rewrite lookup_alter_eq.
    destruct (channels c !! getChannelNameById channelId) eqn:Hl; simpl.
    - by rewrite Hl.
    - by rewrite lookup_insert_eq. }
  split; [done|]. split; [|split; [|split]].
  - intros other Hne. unfold on_new_message. simpl. rewrite lookup_alter_ne by done.
    destruct (channels c !! getChannelNameById channelId); [done|].
    by rewrite lookup_insert_ne.
  - intros Hne.
    assert (getChannelNameById channelId = "random") as Hr
      by (unfold getChannelNameById; by case_decide).
    by rewrite Hr in Hfiled.
  - intros Hcur Hview. unfold on_new_message. simpl. by rewrite bool_decide_eq_true_2.
  - intros Hor. unfold on_new_message. simpl. rewrite bool_decide_eq_false_2; [done|].
    intros [? ?]. by destruct Hor.
Qed.

Lemma new_message_is_filed_witness :
  channels (on_new_message "random" serverView 3
              {| author := "bob"; text := "hi" |}
              {| channels := ∅; messagesContainer := [] |}) !! "random"
    = Some [{| author := "bob"; text := "hi" |}]
  ∧ messagesContainer (on_new_message "random" serverView 3
                         {| author := "bob"; text := "hi" |}
                         {| channels := ∅; messagesContainer := [] |})
    = [{| author := "bob"; text := "hi" |}].
Proof.
  destruct (new_message_is_filed "random" serverView 3 {| author := "bob"; text := "hi" |}
              {| channels := ∅; messagesContainer := [] |}) as (_ & _ & Hrandom & Hshown & _).
  split; [by apply Hrandom|by apply Hshown].
Defined.

(** ** Joining a voice channel *)

Lemma audio_kinds_count kinds s ch :
  inCall s = false →
  localAudioEnabled (joinVoiceChannel ch (Granted kinds) s)
    = replicate (length (List.filter (λ x, bool_decide (x = audio)) kinds))
        (negb (isMuted (device s) || isDeafened (device s))).
Proof.
  intros Hin. unfold joinVoiceChannel, initializeMedia. rewrite Hin.
  set (s1 := set_callInterfaceHidden false (set_inCall true s)).
  pose proof (newStream_enabled audio kinds (tracks (runtime s1))) as Hfresh.
  pose proof (newStream_count audio kinds (tracks (runtime s1))) as Hcount.
  destruct (newStream kinds (tracks (runtime s1))) as [ms heap] eqn:Hnew.
  simpl in Hfresh, Hcount. unfold emitIfConnected, localAudioEnabled, getAudioTracks.
  change (isMuted (device (set_localStream (Some ms) (set_tracks heap s1))))
    with (isMuted (device s)).
  change (isDeafened (device (set_localStream (Some ms) (set_tracks heap s1))))
    with (isDeafened (device s)).
  destruct (isMuted (device s) || isDeafened (device s)); simpl;
    destruct (socketConnected (runtime s)); simpl;
    by rewrite ?flags_written, ?Hfresh, Hcount.
Qed.

Lemma joinVoiceChannel_device ch kinds s :
  inCall s = false → device (joinVoiceChannel ch (Granted kinds) s) = device s.
Proof.
  intros Hin. unfold joinVoiceChannel, initializeMedia, emitIfConnected. rewrite Hin.
  destruct (newStream kinds _) as [ms heap]. by repeat case_match.
Qed.

(** [joinVoiceChannel] outside a call, with the media granted.  The page
    is in the call with the interface shown and the fresh stream stored,
    one [join-voice-channel] with the channel name and the user's id is
    emitted when the socket is connected, no session is opened yet, and
    the device flags are kept.  The audio tracks of the stream are enabled
    unless the user is muted or deafened, in which case all of them are
    disabled. *)
Theorem joinVoiceChannel_granted (ch : string) (kinds : list TrackKind) (s : State) :
  inCall s = false →
  inCall (joinVoiceChannel ch (Granted kinds) s) = true
  ∧ callInterfaceHidden (page (joinVoiceChannel ch (Granted kinds) s)) = false
  ∧ localStream (joinVoiceChannel ch (Granted kinds) s)
      = Some (newStream kinds (tracks (runtime s))).1
  ∧ emitted (runtime (joinVoiceChannel ch (Granted kinds) s))
      = emitted (runtime s)
        ++ (if socketConnected (runtime s)
            then [JoinVoiceChannel ch (callerId (currentUser (config s)))] else [])
  ∧ peerConnections (joinVoiceChannel ch (Granted kinds) s) = peerConnections s
  ∧ device (joinVoiceChannel ch (Granted kinds) s) = device s
  ∧ localAudioEnabled (joinVoiceChannel ch (Granted kinds) s)
      = replicate (length (List.filter (λ x, bool_decide (x = audio)) kinds))
          (negb (isMuted (device s) || isDeafened (device s))).
Proof.
  intros Hin. split; [|split; [|split; [|split; [|split; [|split]]]]];
    try apply (audio_kinds_count kinds s ch Hin);
    unfold joinVoiceChannel, initializeMedia, emitIfConnected; rewrite Hin;
    set (s1 := set_callInterfaceHidden false (set_inCall true s));
    change (tracks (runtime s)) with (tracks (runtime s1));
    destruct (newStream kinds (tracks (runtime s1))) as [ms heap];
    change (isMuted (device (set_localStream (Some ms) (set_tracks heap s1))))
      with (isMuted (device s));
    change (isDeafened (device (set_localStream (Some ms) (set_tracks heap s1))))
      with (isDeafened (device s));
    destruct (isMuted (device s) || isDeafened (device s)); simpl;
    destruct (socketConnected (runtime s)) eqn:Hs; simpl; rewrite ?app_nil_r; done.
Qed.

Lemma joinVoiceChannel_granted_witness :
  localAudioEnabled
    (joinVoiceChannel "voice" (Granted [audio; video]) (setMicrophoneState false false idle))
    = [false]
  ∧ emitted (runtime (joinVoiceChannel "voice" (Granted [audio; video])
                        (setMicrophoneState false false idle)))
    = [JoinVoiceChannel "voice" 1].
Proof.
  destruct (joinVoiceChannel_granted "voice" [audio; video]
              (setMicrophoneState false false idle) eq_refl)
    as (_ & _ & _ & Hem & _ & _ & Ha).
  split; [exact Ha|exact Hem].
Defined.

(** [joinVoiceChannel] outside a call, with the media refused.  The page
    is out of the call again with the interface hidden and the user is
    told; no [join-voice-channel] is emitted, but the forced leave of the
    error path emits [leave-voice-channel] when the socket is connected.
    That forced leave also empties the session table and resets the
    device flags to their defaults, so a mute or deafen set before the
    attempt is lost. *)
Theorem joinVoiceChannel_denied (ch : string) (s : State) :
  inCall s = false →
  inCall (joinVoiceChannel ch Denied s) = false
  ∧ localStream (joinVoiceChannel ch Denied s) = None
  ∧ callInterfaceHidden (page (joinVoiceChannel ch Denied s)) = true
  ∧ alerts (page (joinVoiceChannel ch Denied s))
      = alerts (page s) ++ ["Error accessing camera/microphone. Please grant permissions."]
  ∧ emitted (runtime (joinVoiceChannel ch Denied s))
      = emitted (runtime s)
        ++ (if socketConnected (runtime s)
            then [LeaveVoiceChannel (currentChannel (config s))] else [])
  ∧ peerConnections (joinVoiceChannel ch Denied s) = ∅
  ∧ device (joinVoiceChannel ch Denied s) = defaultDevice.
Proof.
  intros Hin.
  assert (joinVoiceChannel ch Denied s
          = leaveVoiceChannel true
              (alert "Error accessing camera/microphone. Please grant permissions."
                 (set_callInterfaceHidden false (set_inCall true s)))) as ->
    by (unfold joinVoiceChannel; by rewrite Hin).
  unfold leaveVoiceChannel, emitIfConnected. cbn.
  destruct (socketConnected (runtime s)); cbn; rewrite ?app_nil_r; by repeat split.
Qed.

Lemma joinVoiceChannel_denied_witness :
  device (joinVoiceChannel "voice" Denied (setSpeakerState false idle)) = defaultDevice
  ∧ emitted (runtime (joinVoiceChannel "voice" Denied (setSpeakerState false idle)))
    = [LeaveVoiceChannel "general"].
Proof.
  destruct (joinVoiceChannel_denied "voice" (setSpeakerState false idle) eq_refl)
    as (_ & _ & _ & _ & Hem & _ & Hdev).
  split; [exact Hdev|exact Hem].
Defined.

(** Mute and deafen do not outlive a call: after a forced leave from a
    call a fresh join starts with every audio track enabled and the
    default flags, whatever the flags were before the leave. *)
Theorem rejoin_starts_unmuted (ch : string) (kinds : list TrackKind) (s : State) :
  inCall s = true →
  localAudioEnabled (joinVoiceChannel ch (Granted kinds) (leaveVoiceChannel true s))
    = replicate (length (List.filter (λ x, bool_decide (x = audio)) kinds)) true
  ∧ device (joinVoiceChannel ch (Granted kinds) (leaveVoiceChannel true s)) = defaultDevice.
Proof.
  intros Hin.
  destruct (leaveVoiceChannel_forced s Hin) as (Hin' & _ & _ & _ & Hdev & _).
  split.
  - rewrite audio_kinds_count by done. by rewrite Hdev.
  - by rewrite joinVoiceChannel_device.
Qed.

Lemma rejoin_starts_unmuted_witness :
  localAudioEnabled
    (joinVoiceChannel "voice" (Granted [audio; video])
       (leaveVoiceChannel true (setSpeakerState false joined)))
    = [true].
Proof.
  assert (inCall (setSpeakerState false joined) = true) as Hin by (vm_compute; reflexivity).
  exact (proj1 (rejoin_starts_unmuted "voice" [audio; video] (setSpeakerState false joined) Hin)).
Defined.

(** ** Answering an incoming call *)

Lemma elapse_when_hidden ms s :
  incomingCallHidden (page s) = true → elapse ms s = advanced ms s.
Proof.
  intros H. unfold elapse. fold (advanced ms s). by apply foldl_autoReject_hidden.
Qed.

(** An accept that fails for want of media tells nobody: the panel is
    hidden and the user sees an alert, but nothing is emitted then or when
    the timeout of the call comes due later, so the caller gets neither an
    accept nor a reject.  The page is not in a call because of it, and no
    stream and no session has been added. *)
Theorem failed_accept_tells_nobody (s : State) (caller : Caller) (ty : CallType) (ms : Z) :
  acceptBtnOnclick (page s) = Some (caller, ty) →
  emitted (runtime (elapse ms (clickAccept Denied s))) = emitted (runtime s)
  ∧ incomingCallHidden (page (elapse ms (clickAccept Denied s))) = true
  ∧ alerts (page (elapse ms (clickAccept Denied s)))
      = alerts (page s) ++ ["Failed to access camera/microphone. Please check permissions."]
  ∧ inCall (elapse ms (clickAccept Denied s)) = inCall s
  ∧ localStream (elapse ms (clickAccept Denied s)) = localStream s
  ∧ peerConnections (elapse ms (clickAccept Denied s)) = peerConnections s.
Proof.
  intros Hbtn. unfold clickAccept. rewrite Hbtn.
  rewrite elapse_when_hidden by done. done.
Qed.

Lemma failed_accept_tells_nobody_witness :
  emitted (runtime (elapse 30000 (clickAccept Denied (on_incoming_call (Some alice) audioCall idle))))
    = []
  ∧ incomingCallHidden
      (page (elapse 30000 (clickAccept Denied (on_incoming_call (Some alice) audioCall idle))))
    = true.
Proof.
  destruct (failed_accept_tells_nobody (on_incoming_call (Some alice) audioCall idle)
              alice audioCall 30000 eq_refl) as (Hem & Hh & _).
  split; [exact Hem|exact Hh].
Defined.

Lemma acceptCall_before_session caller ty kinds s :
  ∃ s5, acceptCall caller ty (Granted kinds) s
          = match peerConnections s5 !! callerSocketId caller with
            | Some _ => s5
            | None => (createPeerConnection (callerSocketId caller) false s5).2
            end
        ∧ peerConnections s5 = peerConnections s
        ∧ pcHeap (runtime s5) = pcHeap (runtime s)
        ∧ inCall s5 = true
        ∧ page s5 = with_callInterfaceHidden false (page s)
        ∧ emitted (runtime s5)
            = emitted (runtime s)
              ++ (if socketConnected (runtime s)
                  then [AcceptCall (callerSocketId caller) (currentUser (config s))] else [])
        ∧ currentCallDetails s5
            = Some {| friendId := None; peerId := Some (callerSocketId caller);
                      callType := ty; isInitiator := false; originalType := ty |}
        ∧ localStream s5 = Some (newStream kinds (tracks (runtime s))).1.
Proof.
  eexists. split; [reflexivity|].
  unfold emitIfConnected, acquireCallMedia.
  destruct (newStream kinds (tracks (runtime s))) as [ms heap].
  destruct (socketConnected (runtime s)) eqn:Hs, ty; cbn; rewrite ?Hs, ?app_nil_r; cbn;
    by repeat split.
Qed.

(** A click on accept with the media granted, for a caller that has no
    session yet.  The panel is hidden, the page is in the call with the
    interface shown, one [accept-call] addressed to the caller's socket is
    emitted when the socket is connected, and a session with the caller is
    opened in which this side is the responder: no local description and
    no offer.  The call details name the caller's socket with this side
    not the initiator. *)
Theorem accept_opens_responder_session (s : State) (caller : Caller) (ty : CallType)
    (kinds : list TrackKind) :
  acceptBtnOnclick (page s) = Some (caller, ty) →
  peerConnections s !! callerSocketId caller = None →
  incomingCallHidden (page (clickAccept (Granted kinds) s)) = true
  ∧ callInterfaceHidden (page (clickAccept (Granted kinds) s)) = false
  ∧ inCall (clickAccept (Granted kinds) s) = true
  ∧ emitted (runtime (clickAccept (Granted kinds) s))
      = emitted (runtime s)
        ++ (if socketConnected (runtime s)
            then [AcceptCall (callerSocketId caller) (currentUser (config s))] else [])
  ∧ (∃ o, session (clickAccept (Granted kinds) s) (callerSocketId caller) o
          ∧ pcRemote o = callerSocketId caller ∧ pcInitiator o = false
          ∧ pcClosed o = false ∧ localDescription o = None)
  ∧ currentCallDetails (clickAccept (Granted kinds) s)
      = Some {| friendId := None; peerId := Some (callerSocketId caller);
                callType := ty; isInitiator := false; originalType := ty |}.
Proof.
  intros Hbtn Hnone. unfold clickAccept. rewrite Hbtn.
  destruct (acceptCall_before_session caller ty kinds (set_incomingCallHidden true s))
    as (s5 & -> & Hpcs & Hheap & Hin & Hpage & Hem & Hcd & Hls).
  assert (peerConnections s5 !! callerSocketId caller = None) as Hnone5
    by (by rewrite Hpcs).
  rewrite Hnone5.
  destruct (session_created s5 (callerSocketId caller) false Hnone5)
    as (o & Hs & Hr & Hi & Hc & Hl).
  assert (∀ s', s' = (createPeerConnection (callerSocketId caller) false s5).2 →
            page s' = page s5 ∧ inCall s' = inCall s5
            ∧ currentCallDetails s' = currentCallDetails s5) as Hframe.
  { intros s' ->. unfold createPeerConnection. by rewrite Hnone5. }
  destruct (Hframe _ eq_refl) as (Hp' & Hin' & Hcd').
  rewrite createPeerConnection_responder_emitted, Hp', Hin', Hcd', Hpage.
  repeat split; try done. by exists o.
Qed.

Lemma accept_opens_responder_session_witness :
  emitted (runtime (clickAccept (Granted [audio; video])
                      (on_incoming_call (Some alice) videoCall idle)))
    = [AcceptCall "A" me]
  ∧ inCall (clickAccept (Granted [audio; video])
              (on_incoming_call (Some alice) videoCall idle)) = true.
Proof.
  destruct (accept_opens_responder_session (on_incoming_call (Some alice) videoCall idle)
              alice videoCall [audio; video] eq_refl eq_refl)
    as (_ & _ & Hin & Hem & _).
  split; [exact Hem|exact Hin].
Defined.

(** ** The tracks a new session sends *)

Lemma kind_partition heap (l : list nat) :
  (∀ r, r ∈ l → is_Some (heap !! r)) →
  List.filter (hasKind audio heap) l ++ List.filter (hasKind video heap) l ≡ₚ l.
Proof.
  induction l as [|r l IH]; intros Hall; [done|].
  assert (List.filter (hasKind audio heap) l ++ List.filter (hasKind video heap) l ≡ₚ l)
    as Hl by (apply IH; intros x Hx; apply Hall; by right).
  destruct (Hall r) as [t Ht]; [left|].
  assert (∀ k, hasKind k heap r = bool_decide (kind t = k)) as Hk
    by (intros k; unfold hasKind; by rewrite Ht).
  cbn [List.filter]. rewrite !Hk. destruct (kind t); cbn [bool_decide decide_rel]; simpl.
  - by constructor.
  - rewrite <- Permutation_middle. by constructor.
Qed.

(** A session that is opened while a local stream is held sends every
    track of that stream, each once, the audio tracks first and whether or
    not a track is enabled; opened without a stream, it sends nothing. *)
Theorem new_session_sends_every_track (s : State) (id : string) (isInit : bool) :
  peerConnections s !! id = None →
  ∃ o, session (createPeerConnection id isInit s).2 id o
       ∧ (localStream s = None → senders o = [])
       ∧ (∀ ms, localStream s = Some ms →
            senders o
              = getAudioTracks (tracks (runtime s)) ms ++ getVideoTracks (tracks (runtime s)) ms
            ∧ ((∀ r, r ∈ streamTracks ms → is_Some (tracks (runtime s) !! r)) →
               senders o ≡ₚ streamTracks ms)).
Proof.
  intros Hnone.
  exists ((if isInit then setLocalDescription (localSdp offer) else λ o, o)
            (newPeerConnection id isInit
               match localStream s with
               | Some ms =>
                   getAudioTracks (tracks (runtime s)) ms
                   ++ getVideoTracks (tracks (runtime s)) ms
               | None => []
               end)).
  split; [|split].
  - exists (length (pcHeap (runtime s))). unfold createPeerConnection. rewrite Hnone.
    destruct isInit; simpl.
    + rewrite lookup_insert_eq, list_lookup_alter_eq, lookup_app_r, Nat.sub_diag by done.
      done.
    + rewrite lookup_insert_eq, lookup_app_r, Nat.sub_diag by done. done.
  - intros ->. by destruct isInit.
  - intros ms ->. split; [by destruct isInit|].
    intros Hall. destruct isInit; simpl; by apply kind_partition.
Qed.

Lemma new_session_sends_every_track_witness :
  ∃ o, session (createPeerConnection "A" true joined).2 "A" o ∧ senders o ≡ₚ [0; 1]%nat.
Proof.
  destruct (new_session_sends_every_track joined "A" true eq_refl) as (o & Hs & _ & Hsend).
  exists o. split; [exact Hs|].
  apply (Hsend {| streamTracks := [0; 1]%nat |} eq_refl).
  intros r Hr. apply lookup_lt_is_Some_2. apply elem_of_cons in Hr as [->|Hr]; [simpl; lia|].
  apply elem_of_cons in Hr as [->|Hr]; [simpl; lia|]. by apply elem_of_nil in Hr.
Defined.

(** ** Messages to every peer *)








(** ** Playback volume in reachable states *)

Lemma volume_frame s s' :
  remoteParticipants (page s') = remoteParticipants (page s) →
  isDeafened (device s') = isDeafened (device s) →
  volume_follows_deafen s → volume_follows_deafen s'.
Proof. intros Hp Hd H id v. rewrite Hp, Hd. apply H. Qed.

Lemma volume_empty s : remoteParticipants (page s) = ∅ → volume_follows_deafen s.
Proof. intros H id v. by rewrite H, lookup_empty. Qed.

Ltac volume_frame H :=
  eapply volume_frame; [| |exact H]; repeat (simpl; case_match); simpl; done.

Lemma volume_setMicrophoneState en skip s :
  volume_follows_deafen s → volume_follows_deafen (setMicrophoneState en skip s).
Proof.
  intros H. eapply volume_frame; [| |exact H].
  - by rewrite setMicrophoneState_page.
  - rewrite setMicrophoneState_device. by destruct skip.
Qed.

Lemma volume_setSpeakerState en s : volume_follows_deafen (setSpeakerState en s).
Proof.
  intros id v. unfold setSpeakerState.
  destruct en; simpl; rewrite setMicrophoneState_page, setMicrophoneState_device; simpl;
    rewrite lookup_fmap; destruct (remoteParticipants (page s) !! id) as [[w|]|]; simpl;
    intros [=]; done.
Qed.

Lemma volume_leaveVoiceChannel force s :
  volume_follows_deafen s → volume_follows_deafen (leaveVoiceChannel force s).
Proof.
  intros H. unfold leaveVoiceChannel. destruct (inCall s); simpl; [|done].
  destruct force; [|by volume_frame H].
  apply volume_empty. unfold emitIfConnected. by repeat case_match.
Qed.

Lemma volume_dropPeer id s : volume_follows_deafen s → volume_follows_deafen (dropPeer id s).
Proof.
  intros H id' v. unfold dropPeer.
  assert (isDeafened (device match peerConnections s !! id with
                             | Some pc =>
                                 set_peerConnections (delete id (peerConnections s))
                                   (onPc close pc s)
                             | None => s
                             end) = isDeafened (device s)
          ∧ remoteParticipants (page match peerConnections s !! id with
                                      | Some pc =>
                                          set_peerConnections (delete id (peerConnections s))
                                            (onPc close pc s)
                                      | None => s
                                      end) = remoteParticipants (page s)) as [Hd Hp]
    by (by destruct (peerConnections s !! id)).
  simpl. rewrite Hd, Hp. destruct (decide (id = id')) as [<-|Hne].
  - rewrite lookup_alter_eq. by destruct (remoteParticipants (page s) !! id).
  - rewrite lookup_alter_ne by done. apply H.
Qed.

Lemma volume_createPeerConnection id isInit s :
  volume_follows_deafen s → volume_follows_deafen (createPeerConnection id isInit s).2.
Proof. intros H. unfold createPeerConnection, emit, onPc. volume_frame H. Qed.

Lemma volume_on_existing_voice_users users s :
  volume_follows_deafen s → volume_follows_deafen (on_existing_voice_users users s).
Proof.
  revert s. induction users as [|u users IH]; intros s H; [done|].
  rewrite on_existing_voice_users_cons. by apply IH, volume_createPeerConnection.
Qed.

Lemma volume_on_offer from d s :
  volume_follows_deafen s → volume_follows_deafen (on_offer from d s).
Proof.
  intros H. unfold on_offer.
  set (s1 := match peerConnections s !! from with Some _ => s | None => _ end).
  assert (volume_follows_deafen s1) as H1.
  { subst s1. destruct (peerConnections s !! from); [done|].
    by apply volume_createPeerConnection. }
  clearbody s1. unfold emit, onPc. volume_frame H1.
Qed.

Lemma volume_elapse ms s : volume_follows_deafen s → volume_follows_deafen (elapse ms s).
Proof.
  intros H. destruct (elapse_cases ms s) as [->|(c & _ & ->)].
  - by volume_frame H.
  - unfold rejectCall, emitIfConnected. volume_frame H.
Qed.

Lemma volume_acquireCallMedia ty kinds s :
  remoteParticipants (page (acquireCallMedia ty kinds s)) = remoteParticipants (page s)
  ∧ isDeafened (device (acquireCallMedia ty kinds s)) = isDeafened (device s).
Proof. unfold acquireCallMedia. destruct (newStream _ _). by destruct ty. Qed.

Lemma volume_joinVoiceChannel ch gum s :
  volume_follows_deafen s → volume_follows_deafen (joinVoiceChannel ch gum s).
Proof.
  intros H. unfold joinVoiceChannel. destruct (inCall s).
  - volume_frame H.
  - destruct gum as [kinds|].
    + unfold initializeMedia. destruct (newStream _ _). unfold emitIfConnected.
      volume_frame H.
    + apply volume_empty. unfold leaveVoiceChannel, emitIfConnected. simpl.
      by repeat case_match.
Qed.

Lemma volume_step s e : volume_follows_deafen s → volume_follows_deafen (step s e).
Proof.
  intros H. destruct e; simpl.
  - by apply volume_setMicrophoneState.
  - apply volume_setSpeakerState.
  - by apply volume_setMicrophoneState.
  - by apply volume_joinVoiceChannel.
  - by apply volume_leaveVoiceChannel.
  - destruct gum as [kinds|]; [|by volume_frame H].
    destruct (volume_acquireCallMedia ty kinds s) as [Hp Hd].
    eapply volume_frame; [| |exact H]; unfold initiateCall, emitIfConnected;
      case_match; simpl; by rewrite ?Hp, ?Hd.
  - unfold clickAccept. destruct (acceptBtnOnclick _) as [[c ty]|]; [|done].
    destruct gum as [kinds|]; [|by volume_frame H].
    destruct (volume_acquireCallMedia ty kinds (set_incomingCallHidden true s)) as [Hp Hd].
    unfold acceptCall.
    set (s5 := set_isAudioEnabled true _).
    assert (volume_follows_deafen s5) as H5.
    { eapply volume_frame; [| |exact H]; subst s5; unfold emitIfConnected;
        case_match; simpl; by rewrite ?Hp, ?Hd. }
    clearbody s5. destruct (peerConnections s5 !! _); [done|].
    by apply volume_createPeerConnection.
  - unfold clickReject, rejectCall, emitIfConnected. volume_frame H.
  - by apply volume_elapse.
  - by apply volume_createPeerConnection.
  - by apply volume_on_existing_voice_users.
  - by apply volume_dropPeer.
  - by apply volume_on_offer.
  - unfold on_answer, onPc. volume_frame H.
  - unfold on_ice_candidate, onPc. volume_frame H.
  - unfold on_incoming_call, showIncomingCall. volume_frame H.
  - unfold on_call_accepted. destruct (peerConnections s !! _); [done|].
    by apply volume_createPeerConnection.
  - unfold on_call_rejected. volume_frame H.
  - unfold on_call_ended. case_bool_decide.
    + by apply volume_leaveVoiceChannel, volume_dropPeer.
    + by apply volume_dropPeer.
  - unfold onicecandidate, emit. volume_frame H.
  - unfold oniceconnectionstatechange, onPc. volume_frame H.
  - unfold ontrack. destruct (pcHeap (runtime s) !! pc) as [o|]; [|done].
    destruct (remoteParticipants (page s) !! pcRemote o) eqn:Hl; [done|].
    intros id v. simpl. destruct (decide (pcRemote o = id)) as [<-|Hne].
    + rewrite lookup_insert_eq. by intros [= <-].
    + rewrite lookup_insert_ne by done. apply H.
  - volume_frame H.
Qed.

Lemma volume_run s evs : volume_follows_deafen s → volume_follows_deafen (run s evs).
Proof.
  revert s. induction evs as [|e evs IH]; intros s H; [done|].
  rewrite run_cons. by apply IH, volume_step.
Qed.

(** In every reachable state the volume of every remote video on the page
    is 0 while the user is deafened and 1 otherwise: whatever the order of
    deafening, of tracks arriving and of members leaving, a deafened user
    hears nobody and an undeafened one hears everybody. *)
Theorem reachable_volume_follows_deafen (cfg : Config) (s : State) (id : string) (v : Z) :
  reachable cfg s →
  remoteParticipants (page s) !! id = Some (Some v) →
  v = if isDeafened (device s) then 0%Z else 1%Z.
Proof.
  intros [evs ->]. apply volume_run. by apply volume_empty.
Qed.

Lemma reachable_volume_follows_deafen_witness :
  remoteParticipants
    (page (run idle [JoinVoice "voice" (Granted [audio]); ExistingVoiceUsers ["A"];
                     RemoteTrack 0; SetSpeaker false; UserJoinedVoice "B"; RemoteTrack 1]))
    !! "B" = Some (Some 0%Z)
  ∧ 0%Z = if isDeafened
             (device (run idle [JoinVoice "voice" (Granted [audio]); ExistingVoiceUsers ["A"];
                                RemoteTrack 0; SetSpeaker false; UserJoinedVoice "B";
                                RemoteTrack 1]))
          then 0%Z else 1%Z.
Proof.
  assert (remoteParticipants
            (page (run idle [JoinVoice "voice" (Granted [audio]); ExistingVoiceUsers ["A"];
                             RemoteTrack 0; SetSpeaker false; UserJoinedVoice "B";
                             RemoteTrack 1]))
            !! "B" = Some (Some 0%Z)) as Hl by (by vm_compute).
  split; [exact Hl|].
  exact (reachable_volume_follows_deafen cfg0 _ "B" 0%Z
           (reachable_run cfg0 [JoinVoice "voice" (Granted [audio]); ExistingVoiceUsers ["A"];
                                RemoteTrack 0; SetSpeaker false; UserJoinedVoice "B";
                                RemoteTrack 1]) Hl).
Defined.

(** ** Screen sharing *)

Lemma replaceVideoTrack_first heap track pre cam post :
  (∀ r, r ∈ pre → hasKind video heap r = false) →
  hasKind video heap cam = true →
  replaceVideoTrack heap track (pre ++ cam :: post) = pre ++ track :: post.
Proof.
  intros Hpre Hcam. induction pre as [|r pre IH]; simpl.
  - by rewrite Hcam.
  - rewrite (Hpre r) by apply list_elem_of_here.
    rewrite IH; [done|]. intros r' Hr'. apply Hpre. by right.
Qed.

Lemma replaceVideoTrack_idem heap track sent :
  hasKind video heap track = true →
  replaceVideoTrack heap track (replaceVideoTrack heap track sent)
    = replaceVideoTrack heap track sent.
Proof.
  intros Ht. induction sent as [|r sent IH]; [done|]. simpl.
  destruct (hasKind video heap r) eqn:Hr; simpl.
  - by rewrite Ht.
  - by rewrite Hr, IH.
Qed.

Lemma replaceTrack_idem heap track pc :
  hasKind video heap track = true →
  replaceTrack heap track (replaceTrack heap track pc) = replaceTrack heap track pc.
Proof. intros Ht. unfold replaceTrack. simpl. by rewrite replaceVideoTrack_idem. Qed.

Lemma hasKind_app k heap ext r :
  is_Some (heap !! r) → hasKind k (heap ++ ext) r = hasKind k heap r.
Proof.
  intros [t Ht]. unfold hasKind. by rewrite (lookup_app_l_Some _ _ _ _ Ht), Ht.
Qed.

Lemma hasKind_fresh k heap kinds :
  hasKind k (heap ++ (freshTrack <$> k :: kinds)) (length heap) = true.
Proof.
  unfold hasKind. rewrite lookup_app_r, Nat.sub_diag by lia. simpl.
  by apply bool_decide_eq_true.
Qed.

Lemma hasKind_stopped k refs heap r :
  hasKind k (forEachRef stop refs heap) r = hasKind k heap r.
Proof. by apply hasKind_forEachRef. Qed.

(** The video track of a display capture is its first track. *)
Lemma screen_track_first (withAudio : bool) heap :
  head (getVideoTracks (newStream (video :: if withAudio then [audio] else []) heap).2
          (newStream (video :: if withAudio then [audio] else []) heap).1)
    = Some (length heap).
Proof.
  unfold getVideoTracks, getTracksOfKind, newStream.
  cbn [fst snd streamTracks length seq List.filter].
  by rewrite hasKind_fresh.
Qed.

Lemma replaceOutgoingVideo_session track s id pc o :
  hasKind video (tracks (runtime s)) track = true →
  peerConnections s !! id = Some pc →
  pcHeap (runtime s) !! pc = Some o →
  pcHeap (runtime (replaceOutgoingVideo track s)) !! pc
    = Some (replaceTrack (tracks (runtime s)) track o).
Proof.
  intros Ht Hid Hpc. unfold replaceOutgoingVideo. simpl.
  rewrite forEachRef_lookup_in, Hpc; [done| |by eapply elem_of_values].
  intros x. by apply replaceTrack_idem.
Qed.

Lemma toggleScreenShare_start (withAudio : bool) s ms :
  screenStream s = None → localStream s = Some ms →
  toggleScreenShare (DisplayGranted withAudio) s
    = replaceOutgoingVideo (length (tracks (runtime s)))
        (set_screenStream
           (Some (newStream (video :: if withAudio then [audio] else []) (tracks (runtime s))).1)
           (set_tracks
              (newStream (video :: if withAudio then [audio] else []) (tracks (runtime s))).2
              s)).
Proof.
  intros Hscr Hls. unfold toggleScreenShare. rewrite Hscr.
  pose proof (screen_track_first withAudio (tracks (runtime s))) as Hhd.
  destruct (newStream _ _) as [scr heap] eqn:Hnew. simpl in Hhd. rewrite Hhd.
  unfold replaceOutgoingVideo. simpl. by rewrite Hls.
Qed.

Lemma toggleScreenShare_stop disp s scr ms cam :
  screenStream s = Some scr → localStream s = Some ms →
  head (getVideoTracks (tracks (runtime s)) ms) = Some cam →
  toggleScreenShare disp s
    = set_screenStream None
        (replaceOutgoingVideo cam
           (set_tracks (forEachRef stop (streamTracks scr) (tracks (runtime s))) s)).
Proof.
  intros Hscr Hls Hcam. unfold toggleScreenShare. rewrite Hscr. simpl. rewrite Hls.
  unfold getVideoTracks. rewrite getTracksOfKind_forEachRef by done.
  unfold getVideoTracks in Hcam. by rewrite Hcam.
Qed.

Lemma replaceTrack_senders heap track o sent :
  senders o = sent →
  replaceVideoTrack heap track sent = sent →
  replaceTrack heap track o = o.
Proof. intros <- H. destruct o. unfold replaceTrack. simpl in *. by rewrite H. Qed.

(** A screen share that is started and then stopped, in a call whose
    local stream has the camera track [cam] as its first video track, seen
    from a session whose first video sender carries [cam].  While the
    share is on, that sender carries the video track of the capture in
    place of the camera.  After it is stopped, [screenStream] is cleared,
    every track of the capture is stopped, the connection object of the
    session is exactly as before the share, and the local stream, its
    tracks and the log of emitted messages are as before: the peers are
    told nothing and the camera is back. *)
Theorem screen_share_round_trip (s : State) (ms : MediaStream) (cam : nat)
    (withAudio : bool) (disp : DisplayResult) (id : string) (pc : nat)
    (o : RTCPeerConnection) (pre post : list nat) :
  screenStream s = None →
  localStream s = Some ms →
  head (getVideoTracks (tracks (runtime s)) ms) = Some cam →
  peerConnections s !! id = Some pc →
  pcHeap (runtime s) !! pc = Some o →
  (∀ r, r ∈ streamTracks ms → is_Some (tracks (runtime s) !! r)) →
  senders o = pre ++ cam :: post →
  (∀ r, r ∈ pre → ∃ t, tracks (runtime s) !! r = Some t ∧ kind t = audio) →
  (∃ scr o1,
      screenStream (toggleScreenShare (DisplayGranted withAudio) s) = Some scr
      ∧ head (streamTracks scr) = Some (length (tracks (runtime s)))
      ∧ tracks (runtime (toggleScreenShare (DisplayGranted withAudio) s))
          !! length (tracks (runtime s)) = Some (freshTrack video)
      ∧ pcHeap (runtime (toggleScreenShare (DisplayGranted withAudio) s)) !! pc = Some o1
      ∧ senders o1 = pre ++ length (tracks (runtime s)) :: post
      ∧ ∀ r, r ∈ streamTracks scr →
          ∃ t, tracks (runtime (toggleScreenShare disp
                                  (toggleScreenShare (DisplayGranted withAudio) s))) !! r
                 = Some t
               ∧ readyLive t = false)
  ∧ screenStream (toggleScreenShare disp (toggleScreenShare (DisplayGranted withAudio) s))
      = None
  ∧ pcHeap (runtime (toggleScreenShare disp (toggleScreenShare (DisplayGranted withAudio) s)))
      !! pc = Some o
  ∧ localStream (toggleScreenShare disp (toggleScreenShare (DisplayGranted withAudio) s))
      = Some ms
  ∧ (∀ r, r ∈ streamTracks ms →
       tracks (runtime (toggleScreenShare disp
                          (toggleScreenShare (DisplayGranted withAudio) s))) !! r
         = tracks (runtime s) !! r)
  ∧ emitted (runtime (toggleScreenShare disp
                        (toggleScreenShare (DisplayGranted withAudio) s)))
      = emitted (runtime s)
  ∧ alerts (page (toggleScreenShare disp (toggleScreenShare (DisplayGranted withAudio) s)))
      = alerts (page s).
Proof.
  intros Hscr Hls Hcam Hid Hpc Hvalid Hsent Hpre.
  set (kinds := video :: if withAudio then [audio] else []).
  set (heap := tracks (runtime s)) in *.
  set (heap1 := heap ++ (freshTrack <$> kinds)).
  set (scr := {| streamTracks := seq (length heap) (length kinds) |}).
  assert (cam ∈ streamTracks ms ∧ hasKind video heap cam = true) as [Hcin Hcv].
  { apply elem_of_getTracksOfKind. unfold getVideoTracks in Hcam.
    destruct (getTracksOfKind video heap ms) as [|c l]; [done|].
    injection Hcam as ->. apply list_elem_of_here. }
  assert (∀ r, is_Some (heap !! r) → hasKind video heap1 r = hasKind video heap r) as Hold.
  { intros r Hr. by apply hasKind_app. }
  assert (hasKind video heap1 (length heap) = true) as Hnew by apply hasKind_fresh.
  assert (∀ r, r ∈ pre → hasKind video heap1 r = false) as Hpre1.
  { intros r Hr. destruct (Hpre r Hr) as (t & Ht & Hk).
    rewrite Hold by (by eexists). unfold hasKind. rewrite Ht, Hk. done. }
  set (s1 := toggleScreenShare (DisplayGranted withAudio) s).
  assert (s1 = replaceOutgoingVideo (length heap)
                 (set_screenStream (Some scr) (set_tracks heap1 s))) as Hs1
    by (by apply (toggleScreenShare_start _ _ ms)).
  assert (pcHeap (runtime s1) !! pc
            = Some (replaceTrack heap1 (length heap) o)) as Hpc1.
  { rewrite Hs1.
    exact (replaceOutgoingVideo_session (length heap)
             (set_screenStream (Some scr) (set_tracks heap1 s)) id pc o Hnew Hid Hpc). }
  assert (senders (replaceTrack heap1 (length heap) o) = pre ++ length heap :: post) as Hs1o.
  { simpl. rewrite Hsent. apply replaceVideoTrack_first; [done|].
    rewrite Hold; [done|]. by apply Hvalid. }
  assert (tracks (runtime s1) = heap1 ∧ screenStream s1 = Some scr ∧ localStream s1 = Some ms
          ∧ peerConnections s1 = peerConnections s ∧ emitted (runtime s1) = emitted (runtime s)
          ∧ alerts (page s1) = alerts (page s)) as (Ht1 & Hscr1 & Hls1 & Hpcs1 & Hem1 & Hal1)
    by (by rewrite Hs1).
  assert (head (getVideoTracks (tracks (runtime s1)) ms) = Some cam) as Hcam1.
  { rewrite Ht1. unfold getVideoTracks, getTracksOfKind in *.
    rewrite <- Hcam. f_equal. apply List.filter_ext_in. intros r Hr. apply Hold.
    by apply Hvalid, list_elem_of_In. }
  clearbody s1.
  set (heap2 := forEachRef stop (streamTracks scr) heap1).
  assert (toggleScreenShare disp s1
            = set_screenStream None (replaceOutgoingVideo cam (set_tracks heap2 s1))) as ->.
  { subst heap2. rewrite <- Ht1. by apply (toggleScreenShare_stop _ _ _ ms). }
  assert (pcHeap (runtime (replaceOutgoingVideo cam (set_tracks heap2 s1))) !! pc
            = Some (replaceTrack heap2 cam (replaceTrack heap1 (length heap) o))) as Hpc2.
  { refine (replaceOutgoingVideo_session cam (set_tracks heap2 s1) id pc _ _ _ Hpc1).
    - simpl. subst heap2. rewrite hasKind_stopped, Hold; [done|]. by apply Hvalid.
    - simpl. by rewrite Hpcs1. }
  assert (replaceTrack heap2 cam (replaceTrack heap1 (length heap) o) = o) as Hback.
  { assert (replaceVideoTrack heap2 cam (pre ++ length heap :: post) = pre ++ cam :: post)
      as Hrep.
    { apply replaceVideoTrack_first.
      - intros r Hr. subst heap2. rewrite hasKind_stopped. by apply Hpre1.
      - subst heap2. by rewrite hasKind_stopped. }
    unfold replaceTrack at 1. rewrite Hs1o, Hrep, <- Hsent. by destruct o. }
  assert (∀ r, tracks (runtime (set_screenStream None
                                  (replaceOutgoingVideo cam (set_tracks heap2 s1)))) !! r
               = if decide (r ∈ streamTracks scr) then stop <$> heap1 !! r else heap1 !! r)
    as Htr.
  { intros r. simpl. subst heap2. apply forEachRef_lookup, stop_idem. }
  split; [|split_and!].
  - exists scr, (replaceTrack heap1 (length heap) o).
    split; [done|]. split; [by destruct withAudio|]. split.
    { rewrite Ht1. subst heap1. by rewrite lookup_app_r, Nat.sub_diag by lia. }
    split; [done|]. split; [done|].
    intros r Hr. rewrite Htr, decide_True by done.
    destruct (lookup_lt_is_Some_2 heap1 r) as [t Ht].
    { subst heap1. rewrite length_app, length_fmap.
      change (r ∈ seq (length heap) (length kinds)) in Hr.
      apply elem_of_seq in Hr. lia. }
    rewrite Ht. by eexists.
  - done.
  - simpl pcHeap. simpl in Hpc2. by rewrite Hpc2, Hback.
  - done.
  - intros r Hr. rewrite Htr. destruct (Hvalid r Hr) as [t Ht].
    rewrite decide_False.
    + subst heap1. by rewrite (lookup_app_l_Some _ _ _ _ Ht).
    + change (r ∉ seq (length heap) (length kinds)).
      intros Hin%elem_of_seq. apply lookup_lt_Some in Ht. lia.
  - done.
  - done.
Qed.

Lemma screen_share_round_trip_witness :
  screenStream (toggleScreenShare (DisplayDenied true)
                  (toggleScreenShare (DisplayGranted true) listening)) = None
  ∧ pcHeap (runtime (toggleScreenShare (DisplayDenied true)
                       (toggleScreenShare (DisplayGranted true) listening))) !! 0%nat
      = Some (newPeerConnection "A" false [0; 1]%nat).
Proof.
  assert (∀ r, r ∈ [0; 1]%nat → is_Some (tracks (runtime listening) !! r)) as Hvalid.
  { intros r Hr. apply elem_of_cons in Hr as [->|Hr]; [by eexists|].
    apply list_elem_of_singleton in Hr as ->. by eexists. }
  assert (∀ r, r ∈ [0%nat] →
            ∃ t, tracks (runtime listening) !! r = Some t ∧ kind t = audio) as Hpre.
  { intros r Hr. apply list_elem_of_singleton in Hr as ->. by eexists. }
  destruct (screen_share_round_trip listening {| streamTracks := [0; 1]%nat |} 1%nat true
              (DisplayDenied true) "A" 0%nat (newPeerConnection "A" false [0; 1]%nat)
              [0%nat] [] eq_refl eq_refl eq_refl eq_refl eq_refl Hvalid eq_refl Hpre)
    as (_ & Hscr & Hpc & _).
  split; [exact Hscr|exact Hpc].
Defined.

Lemma forEachRef_twice {A} (f : A → A) refs (heap : list A) :
  (∀ x, f (f x) = f x) →
  forEachRef f refs (forEachRef f refs heap) = forEachRef f refs heap.
Proof.
  intros Hidem. apply list_eq. intros i. rewrite !forEachRef_lookup by done.
  destruct (decide (i ∈ refs)); [|done].
  destruct (heap !! i); simpl; [by rewrite Hidem|done].
Qed.

(** The share button while a capture is held and there is no local
    stream, as after a declined call during a share.  The click stops the
    tracks of the capture and then fails on [localStream]: the page keeps
    the stopped capture in [screenStream], no connection gets another
    track, nothing is emitted or shown, and every further click leaves the
    page as it is, so no new capture is started. *)
Theorem stale_capture_blocks_sharing (s : State) (scr : MediaStream)
    (disp disp' : DisplayResult) :
  localStream s = None →
  screenStream s = Some scr →
  screenStream (toggleScreenShare disp s) = Some scr
  ∧ (∀ r t, r ∈ streamTracks scr → tracks (runtime s) !! r = Some t →
       ∃ t', tracks (runtime (toggleScreenShare disp s)) !! r = Some t'
             ∧ readyLive t' = false)
  ∧ pcHeap (runtime (toggleScreenShare disp s)) = pcHeap (runtime s)
  ∧ emitted (runtime (toggleScreenShare disp s)) = emitted (runtime s)
  ∧ page (toggleScreenShare disp s) = page s
  ∧ toggleScreenShare disp' (toggleScreenShare disp s) = toggleScreenShare disp s.
Proof.
  intros Hls Hscr.
  assert (∀ d s0, localStream s0 = None → screenStream s0 = Some scr →
            toggleScreenShare d s0
              = set_tracks (forEachRef stop (streamTracks scr) (tracks (runtime s0))) s0)
    as Hstep.
  { intros d s0 Hls0 Hscr0. unfold toggleScreenShare. rewrite Hscr0. simpl. by rewrite Hls0. }
  rewrite (Hstep disp' (toggleScreenShare disp s)); rewrite !(Hstep disp s Hls Hscr); try done.
  split_and!; try done.
  - intros r t Hr Ht. simpl. rewrite forEachRef_lookup_in, Ht by (done || apply stop_idem).
    by eexists.
  - simpl. by rewrite forEachRef_twice by apply stop_idem.
Qed.

Lemma stale_capture_blocks_sharing_witness :
  screenStream
    (toggleScreenShare (DisplayGranted true)
       (run (toggleScreenShare (DisplayGranted false)
               (run idle [StartCall 5 videoCall (Granted [audio; video])]))
          [CallRejected]))
    = Some {| streamTracks := [2%nat] |}
  ∧ toggleScreenShare (DisplayGranted true)
      (toggleScreenShare (DisplayGranted true)
         (run (toggleScreenShare (DisplayGranted false)
                 (run idle [StartCall 5 videoCall (Granted [audio; video])]))
            [CallRejected]))
    = toggleScreenShare (DisplayGranted true)
        (run (toggleScreenShare (DisplayGranted false)
                (run idle [StartCall 5 videoCall (Granted [audio; video])]))
           [CallRejected]).
Proof.
  destruct (stale_capture_blocks_sharing
              (run (toggleScreenShare (DisplayGranted false)
                      (run idle [StartCall 5 videoCall (Granted [audio; video])]))
                 [CallRejected])
              {| streamTracks := [2%nat] |} (DisplayGranted true) (DisplayGranted true)
              eq_refl eq_refl) as (H1 & _ & _ & _ & _ & H2).
  split; [exact H1|exact H2].
Defined.
